(** * pyrealtime: layers, ports and the main loop

    A shallow embedding of [pyrealtime/layer.py]: the fan-out [Port], the
    [MultiOutputMixin] port maps and dispatch, and [BaseLayer]'s signal drain
    and [process_loop].

    Python objects that are shared and mutated in place (queues and [Port]
    instances) live in a store, addressed by object identity; the fields of the
    layer under study are a record threaded next to that store.  Exceptions are
    results of a state-and-error monad in which the state survives a raise, as
    it does in Python. *)

From stdpp Require Import gmap strings list fin_maps.
From Stdlib Require Import ZArith.

Open Scope string_scope.
Open Scope list_scope.

(** ** Python values *)

(** The fragment of Python data the layer code inspects: [None] (the "no
    value" marker), integers, strings and dictionaries keyed by strings. *)
#[warnings="-register-all"]
Inductive value : Type :=
  | VNone
  | VInt (n : Z)
  | VStr (s : string)
  | VDict (kvs : list (string * value)).

(** [data is None] *)
Definition is_none (v : value) : bool :=
  match v with VNone => true | _ => false end.

(** ** Insertion-ordered dictionaries with string keys *)

Module Dict.
Section Dict.
Context {V : Type}.

Fixpoint get (k : string) (d : list (string * V)) : option V :=
  match d with
  | [] => None
  | (k', v) :: d' => if String.eqb k k' then Some v else get k d'
  end.

(** [k in d] *)
Definition mem (k : string) (d : list (string * V)) : bool :=
  match get k d with Some _ => true | None => false end.

(** [list(d.keys())] *)
Definition keys (d : list (string * V)) : list string := map fst d.

(** [d[k] = v]: replaces in place when [k] is present, appends otherwise. *)
Fixpoint set (k : string) (v : V) (d : list (string * V)) : list (string * V) :=
  match d with
  | [] => [(k, v)]
  | (k', v') :: d' =>
      if String.eqb k k' then (k, v) :: d' else (k', v') :: set k v d'
  end.
End Dict.
End Dict.

(** ** Exceptions and the state-and-error monad *)

Inductive exn : Type :=
  | NameError (msg : string)
  | TypeError
  | KeyError (key : string).

Inductive res (A : Type) : Type :=
  | Ok (a : A)
  | Raise (e : exn).
Arguments Ok {A} a.
Arguments Raise {A} e.

(** A computation over a state [S]: the state is returned on both outcomes. *)
Definition M (S A : Type) : Type := S -> res A * S.

Definition ret {S A} (a : A) : M S A := fun s => (Ok a, s).
Definition raise {S A} (e : exn) : M S A := fun s => (Raise e, s).
Definition bind {S A B} (c : M S A) (k : A -> M S B) : M S B :=
  fun s => match c s with
           | (Ok a, s') => k a s'
           | (Raise e, s') => (Raise e, s')
           end.
Definition gets {S A} (f : S -> A) : M S A := fun s => (Ok (f s), s).
Definition modify {S} (f : S -> S) : M S unit := fun s => (Ok tt, f s).

Notation "'let*' x ':=' c 'in' k" := (bind c (fun x => k))
  (at level 10, x name, c at level 200, k at level 200, only parsing).

(** [for x in xs: body(x)] *)
Fixpoint for_each {S A} (xs : list A) (body : A -> M S unit) : M S unit :=
  match xs with
  | [] => ret tt
  | x :: xs' => let* _ := body x in for_each xs' body
  end.

(** ** The object store *)

(** Queues ([multiprocessing.Queue]) and [Port] instances are identified by a
    number drawn from one counter.  A queue is the list of its pending items,
    oldest first; a [Port] is its [out_queues] list.  An identity that has no
    entry yet reads as the empty object. *)
Record world : Type := World {
  next_id : nat;
  queues : gmap nat (list value);
  port_objs : gmap nat (list nat)
}.

Definition empty_world : world := World 0 ∅ ∅.

(** Pending items of queue [q]. *)
Definition contents (w : world) (q : nat) : list value :=
  default [] (queues w !! q).

(** [self.out_queues] of the [Port] [p]. *)
Definition out_queues (w : world) (p : nat) : list nat :=
  default [] (port_objs w !! p).

Module Queue.
(** [ctx.Queue()] *)
Definition new (w : world) : nat * world :=
  (next_id w,
   World (S (next_id w)) (<[next_id w := []]> (queues w)) (port_objs w)).

(** [queue.put(data)] *)
Definition put (q : nat) (data : value) (w : world) : world :=
  World (next_id w) (<[q := contents w q ++ [data]]> (queues w)) (port_objs w).

(** [queue.empty()] *)
Definition empty (q : nat) (w : world) : bool :=
  match contents w q with [] => true | _ => false end.

(** [queue.get()]: [None] stands for a call that would block. *)
Definition get (q : nat) (w : world) : option (value * world) :=
  match contents w q with
  | [] => None
  | x :: rest =>
      Some (x, World (next_id w) (<[q := rest]> (queues w)) (port_objs w))
  end.
End Queue.

(** ** class Port *)

Module Port.
(** [Port()]: [self.out_queues = []] *)
Definition new (w : world) : nat * world :=
  (next_id w,
   World (S (next_id w)) (queues w) (<[next_id w := []]> (port_objs w))).

(** [get_output]: a new queue, appended to [out_queues] and returned. *)
Definition get_output (p : nat) (w : world) : nat * world :=
  let '(q, w1) := Queue.new w in
  (q, World (next_id w1) (queues w1)
            (<[p := out_queues w1 p ++ [q]]> (port_objs w1))).

(** [handle_output]: every queue of [out_queues] gets [data], unless [data]
    is [None]. *)
Definition handle_output (p : nat) (data : value) (w : world) : world :=
  if is_none data then w
  else foldl (fun w' q => Queue.put q data w') w (out_queues w p).

(** A sequence of calls of [handle_output], in order. *)
Definition handle_outputs (p : nat) (vs : list value) (w : world) : world :=
  foldl (fun w' v => handle_output p v w') w vs.
End Port.

(** What one emission of [data] leaves at a subscriber. *)
Definition emitted (data : value) : list value :=
  if is_none data then [] else [data].

(** The values of a sequence that are not the marker. *)
Definition non_marker (vs : list value) : list value :=
  filter (fun v => is_none v = false) vs.

(** ** Python's [in] and subscript on the modelled values *)

(** [k] occurs in [s] as a contiguous substring. *)
Fixpoint is_substring (k s : string) : bool :=
  String.prefix k s
  || match s with
     | EmptyString => false
     | String _ s' => is_substring k s'
     end.

(** [key in data]: key membership for a dictionary, substring test for a
    string, [TypeError] for [None] and integers. *)
Definition py_contains {S} (key : string) (data : value) : M S bool :=
  match data with
  | VDict kvs => ret (Dict.mem key kvs)
  | VStr s => ret (is_substring key s)
  | VNone | VInt _ => raise TypeError
  end.

(** [data[key]] with a string [key]. *)
Definition py_getitem {S} (data : value) (key : string) : M S value :=
  match data with
  | VDict kvs =>
      match Dict.get key kvs with
      | Some v => ret v
      | None => raise (KeyError key)
      end
  | VStr _ | VNone | VInt _ => raise TypeError
  end.

(** ** class MultiOutputMixin(BaseOutputLayer) *)

(** The fields of one multi-port layer: the primary [out_port] of
    [BaseOutputLayer], and the two dictionaries from port name to [Port]. *)
Record multi_layer : Type := MultiLayer {
  out_port : nat;
  ports : list (string * nat);
  auto_ports : list (string * nat)
}.

Record mstate : Type := MState {
  layer : multi_layer;
  store : world
}.

Module MultiOutputMixin.
(** [__init__]: both maps empty, then [BaseOutputLayer.__init__] creates the
    primary port. *)
Definition init (w : world) : mstate :=
  let '(p, w') := Port.new w in
  MState (MultiLayer p [] []) w'.

Definition port_list (auto : bool) (s : mstate) : list (string * nat) :=
  if auto then auto_ports (layer s) else ports (layer s).

Definition set_port_list (auto : bool) (d : list (string * nat))
    (s : mstate) : mstate :=
  if auto
  then MState (MultiLayer (out_port (layer s)) (ports (layer s)) d) (store s)
  else MState (MultiLayer (out_port (layer s)) d (auto_ports (layer s)))
              (store s).

(** [Port()] evaluated inside a method of the layer. *)
Definition new_port : M mstate nat :=
  fun s => let '(p, w') := Port.new (store s) in
           (Ok p, MState (layer s) w').

Definition _register_port (port : string) (auto : bool) : M mstate unit :=
  let* port_list_ := gets (port_list auto) in
  if Dict.mem port port_list_
  then raise (NameError ("Port " +:+ port +:+ " already exists"))
  else
    let* p := new_port in
    modify (fun s => set_port_list auto (Dict.set port p (port_list auto s)) s).

Definition get_port (port : string) : M mstate nat :=
  let* declared := gets (fun s => Dict.get port (ports (layer s))) in
  match declared with
  | Some p => ret p
  | None =>
      let* auto := gets (fun s => Dict.get port (auto_ports (layer s))) in
      match auto with
      | Some p => ret p
      | None =>
          let* _ := _register_port port true in
          let* auto' := gets (fun s => Dict.get port (auto_ports (layer s))) in
          match auto' with
          | Some p => ret p
          | None => raise (NameError ("Port " +:+ port +:+ " does not exist"))
          end
      end
  end.

(** [port.handle_output(data)] on a [Port] of the store. *)
Definition port_handle_output (p : nat) (data : value) : M mstate unit :=
  modify (fun s => MState (layer s) (Port.handle_output p data (store s))).

(** [BaseOutputLayer.handle_output], reached through [super()]. *)
Definition super_handle_output (data : value) : M mstate unit :=
  let* p := gets (fun s => out_port (layer s)) in
  port_handle_output p data.

(** The body of the [for key in ...] loop of [handle_output]. *)
Definition handle_output_key (data : value) (key : string) : M mstate unit :=
  let* declared := gets (fun s => Dict.get key (ports (layer s))) in
  let* port :=
    match declared with
    | Some p => ret p
    | None =>
        let* auto := gets (fun s => Dict.get key (auto_ports (layer s))) in
        match auto with
        | Some p => ret p
        | None => raise (NameError ("Port " +:+ key +:+ " does not exist"))
        end
    end in
  let* present := py_contains key data in
  if present
  then let* v := py_getitem data key in port_handle_output port v
  else ret tt.

Definition handle_output (data : value) : M mstate unit :=
  let* keys := gets (fun s => Dict.keys (ports (layer s))
                              ++ Dict.keys (auto_ports (layer s))) in
  let* _ := for_each keys (handle_output_key data) in
  super_handle_output data.

(** [self.get_port(name).get_output()]: how a downstream layer subscribes to
    a named port. *)
Definition subscribe (port : string) : M mstate nat :=
  let* p := get_port port in
  fun s => let '(q, w') := Port.get_output p (store s) in
           (Ok q, MState (layer s) w').

(** [BaseOutputLayer.get_output]: subscription to the primary port. *)
Definition get_output : M mstate nat :=
  fun s => let '(q, w') := Port.get_output (out_port (layer s)) (store s) in
           (Ok q, MState (layer s) w').
End MultiOutputMixin.

(** ** class BaseLayer *)

(** Calls made by the main loop, in the order they happen. *)
Inductive event : Type :=
  | EvGetInput (data : value)
  | EvHandleSignal (signal : value)
  | EvPostInit (data : value)
  | EvTransform (data : value)
  | EvHandleOutput (data : value).

(** How a piece of the loop can end: it returns, it waits in a blocking
    [Queue.get], or the model's fuel for a [while] loop is used up. *)
Inductive outcome (A : Type) : Type :=
  | Done (a : A)
  | Blocked
  | OutOfFuel.
Arguments Done {A} a.
Arguments Blocked {A}.
Arguments OutOfFuel {A}.

(** What the surroundings of a layer do around one test of the loop condition:
    the value [stop_event.is_set()] has at the top of the loop, the item
    [get_input()] returns, and the messages the control source has put on the
    layer's [signal_in] queue since the previous test. *)
Record tick : Type := Tick {
  stop_is_set : bool;
  input : value;
  signals_sent : list value
}.

Module BaseLayer.
Section BaseLayer.
(** [U] is the state a subclass adds.  The overridable methods read the
    fields of [BaseLayer] and write only the subclass state; they return
    normally. *)
Context {U : Type}.

Record fields : Type := Fields {
  signal : value;
  is_first : bool;
  signal_in : option nat;
  out_port : nat;
  user : U
}.

Record lstate : Type := LState {
  self : fields;
  store : world;
  trace : list event
}.

Variable post_init : fields -> value -> U.
Variable transform : fields -> value -> value * U.
Variable handle_signal : fields -> value -> U.

(** [__init__] once [signal_in] has been subscribed and [out_port] made. *)
Definition init (signal_in_ : option nat) (out_port_ : nat) (u : U)
    (w : world) : lstate :=
  LState (Fields VNone true signal_in_ out_port_ u) w [].

Definition set_signal (v : value) (s : lstate) : lstate :=
  LState (Fields v (is_first (self s)) (signal_in (self s))
                 (out_port (self s)) (user (self s)))
         (store s) (trace s).

Definition set_is_first (b : bool) (s : lstate) : lstate :=
  LState (Fields (signal (self s)) b (signal_in (self s))
                 (out_port (self s)) (user (self s)))
         (store s) (trace s).

Definition set_user (u : U) (s : lstate) : lstate :=
  LState (Fields (signal (self s)) (is_first (self s)) (signal_in (self s))
                 (out_port (self s)) u)
         (store s) (trace s).

Definition set_store (w : world) (s : lstate) : lstate :=
  LState (self s) w (trace s).

Definition log (e : event) (s : lstate) : lstate :=
  LState (self s) (store s) (trace s ++ [e]).

(** [self.handle_signal(signal)] *)
Definition call_handle_signal (x : value) (s : lstate) : lstate :=
  set_user (handle_signal (self s) x) (log (EvHandleSignal x) s).

(** [self.post_init(data)] *)
Definition call_post_init (data : value) (s : lstate) : lstate :=
  set_user (post_init (self s) data) (log (EvPostInit data) s).

(** [self.transform(data)] *)
Definition call_transform (data : value) (s : lstate) : value * lstate :=
  let '(r, u) := transform (self s) data in
  (r, set_user u (log (EvTransform data) s)).

(** [self.handle_output(data)], which is [BaseOutputLayer.handle_output]. *)
Definition call_handle_output (data : value) (s : lstate) : lstate :=
  set_store (Port.handle_output (out_port (self s)) data (store s))
            (log (EvHandleOutput data) s).

(** The [while not self.signal_in.empty()] loop of [get_signal]; [fuel]
    bounds the number of tests of its condition. *)
Fixpoint drain (fuel : nat) (q : nat) (s : lstate) : outcome lstate :=
  match fuel with
  | 0 => OutOfFuel
  | S fuel' =>
      if Queue.empty q (store s) then Done s
      else
        match Queue.get q (store s) with
        | None => Blocked
        | Some (x, w') =>
            drain fuel' q (call_handle_signal x (set_signal x (set_store w' s)))
        end
  end.

Definition get_signal (fuel : nat) (s : lstate) : outcome lstate :=
  let s0 := set_signal VNone s in
  match signal_in (self s0) with
  | None => Done s0
  | Some q => drain fuel q s0
  end.

(** The messages waiting on the control input. *)
Definition pending (s : lstate) : list value :=
  match signal_in (self s) with
  | None => []
  | Some q => contents (store s) q
  end.

(** The control source puts [msgs] on [signal_in], if the layer has one. *)
Definition deliver (msgs : list value) (s : lstate) : lstate :=
  match signal_in (self s) with
  | None => s
  | Some q => set_store (foldl (fun w x => Queue.put q x w) (store s) msgs) s
  end.

(** The body of the [while] loop of [process_loop], after the loop condition
    was found true.  The drain gets one unit of fuel per pending message and
    one for the test that ends it. *)
Definition iteration (t : tick) (s : lstate) : outcome lstate :=
  let s := deliver (signals_sent t) s in
  let data := input t in
  let s := log (EvGetInput data) s in
  if is_none data then Done s
  else
    match get_signal (S (length (pending s))) s with
    | Done s =>
        let s :=
          if is_first (self s)
          then set_is_first false (call_post_init data s)
          else s in
        let '(data_transformed, s) := call_transform data s in
        if is_none data_transformed then Done s
        else Done (call_handle_output data_transformed s)
    | Blocked => Blocked
    | OutOfFuel => OutOfFuel
    end.

(** How a run of [process_loop] against a script of ticks ends. *)
Inductive loop_result : Type :=
  | Exited (s : lstate)
  | Running (s : lstate)
  | HungBlocked
  | HungOutOfFuel.

(** [process_loop]: one tick per test of [self.stop_event.is_set()].  The
    loop has [Exited] when a test found the event set; it is still [Running]
    when the script ends before that. *)
Fixpoint process_loop (script : list tick) (s : lstate) : loop_result :=
  match script with
  | [] => Running s
  | t :: script' =>
      if stop_is_set t then Exited s
      else
        match iteration t s with
        | Done s' => process_loop script' s'
        | Blocked => HungBlocked
        | OutOfFuel => HungOutOfFuel
        end
  end.

(** Projections of a trace. *)
Definition post_init_calls (tr : list event) : list value :=
  omap (fun e => match e with EvPostInit d => Some d | _ => None end) tr.

Definition handled_signals (tr : list event) : list value :=
  omap (fun e => match e with EvHandleSignal x => Some x | _ => None end) tr.

Definition fetched (tr : list event) : list value :=
  omap (fun e => match e with EvGetInput d => Some d | _ => None end) tr.
End BaseLayer.
Arguments fields : clear implicits.
Arguments lstate : clear implicits.
Arguments loop_result : clear implicits.
End BaseLayer.

(** [BaseLayer] itself: no subclass state, and the methods as the class
    defines them ([post_init] and [handle_signal] do nothing, [transform] is
    the identity). *)
Module Plain.
Definition post_init (_ : BaseLayer.fields unit) (_ : value) : unit := tt.
Definition transform (_ : BaseLayer.fields unit) (data : value)
  : value * unit := (data, tt).
Definition handle_signal (_ : BaseLayer.fields unit) (_ : value) : unit := tt.

Definition process_loop :=
  BaseLayer.process_loop post_init transform handle_signal.
Definition get_signal :=
  BaseLayer.get_signal (U:=unit) handle_signal.

(** A layer with a control input (queue 0) and one subscriber (queue 2) on
    its output port (port 1). *)
Definition start : BaseLayer.lstate unit :=
  let '(q, w0) := Queue.new empty_world in
  let '(p, w1) := Port.new w0 in
  let '(_, w2) := Port.get_output p w1 in
  BaseLayer.init (Some q) p tt w2.

(** [start] with two messages waiting on the control input. *)
Definition queued : BaseLayer.lstate unit :=
  BaseLayer.deliver [VStr "x"; VStr "y"] start.

(** [start] after one iteration that fetched 1 and drained one message. *)
Definition after_first : BaseLayer.lstate unit :=
  match process_loop [Tick false (VInt 1) [VStr "x"]] start with
  | BaseLayer.Running s => s
  | _ => start
  end.
End Plain.

(** ** class TransformMixin(BaseInputLayer) *)

Module TransformMixin.
(** [__init__]: [self.port_in] is a new subscription to the upstream port, or
    [None] when no upstream is given. *)
Definition init (upstream : option nat) (w : world) : option nat * world :=
  match upstream with
  | None => (None, w)
  | Some p => let '(q, w') := Port.get_output p w in (Some q, w')
  end.

(** How a call of [get_input] ends: with the next item, waiting in the blocking
    [get] of an empty queue, or with the [AttributeError] of [None.get]. *)
Inductive fetch : Type :=
  | Fetched (data : value) (w : world)
  | WouldBlock
  | AttributeError.

(** [get_input]: [self.port_in.get()] *)
Definition get_input (port_in : option nat) (w : world) : fetch :=
  match port_in with
  | None => AttributeError
  | Some q =>
      match Queue.get q w with
      | None => WouldBlock
      | Some (x, w') => Fetched x w'
      end
  end.

(** [n] calls of [get_input] in a row, all of which return. *)
Fixpoint get_inputs (n : nat) (port_in : option nat) (w : world)
  : option (list value * world) :=
  match n with
  | 0 => Some ([], w)
  | S n' =>
      match get_input port_in w with
      | Fetched x w' =>
          match get_inputs n' port_in w' with
          | Some (xs, w'') => Some (x :: xs, w'')
          | None => None
          end
      | WouldBlock | AttributeError => None
      end
  end.
End TransformMixin.

(** ** class FPSMixin *)

(** Times are in microseconds, the resolution of [datetime] and [timedelta]:
    a [datetime] is its offset from a fixed instant, a [timedelta] its signed
    length.  Python floats are not modelled: [F] stands for them, [fdiv n us]
    for [n / d.total_seconds()] of a non-zero [timedelta] [d] of [us]
    microseconds, and [fzero] for the initial [0]. *)
Module FPSMixin.
Section FPSMixin.
Context {F : Type}.
Variable fdiv : nat -> Z -> F.
Variable fzero : F.

(** The fields of the mixin, and in [printed] what [print] has written so
    far. *)
Record state : Type := State {
  count : nat;
  start_time : Z;
  time_window : Z;
  print_fps : bool;
  fps : F;
  printed : list F
}.

(** [reset], with the reading its [datetime.now()] gives. *)
Definition reset (now : Z) (s : state) : state :=
  State 0 now (time_window s) (print_fps s) (fps s) (printed s).

(** [__init__], with the reading of the clock in its call of [reset]. *)
Definition init (time_window_ : Z) (now : Z) : state :=
  State 0 now time_window_ false fzero [].

Inductive tick_result : Type :=
  | Ticked (s : state)
  | ZeroDivisionError (s : state).

(** [tick]: [t] is the reading of its own [datetime.now()], [now] the one of
    the [reset] it may call.  The division raises when the elapsed time is
    zero; the count has been incremented by then. *)
Definition tick (t now : Z) (s : state) : tick_result :=
  let s1 := State (S (count s)) (start_time s) (time_window s) (print_fps s)
                  (fps s) (printed s) in
  if (time_window s1 <=? t - start_time s1)%Z then
    if (t - start_time s1 =? 0)%Z then ZeroDivisionError s1
    else
      let rate := fdiv (count s1) (t - start_time s1) in
      let out := if print_fps s1 then printed s1 ++ [rate] else printed s1 in
      Ticked (reset now (State (count s1) (start_time s1) (time_window s1)
                               (print_fps s1) rate out))
  else Ticked s1.

(** The state a call leaves, raised or not. *)
Definition state_after (r : tick_result) : state :=
  match r with Ticked s | ZeroDivisionError s => s end.

(** Calls of [tick] in a row, one pair of clock readings each, up to the
    first that raises. *)
Fixpoint ticks (readings : list (Z * Z)) (s : state) : tick_result :=
  match readings with
  | [] => Ticked s
  | (t, now) :: readings' =>
      match tick t now s with
      | Ticked s' => ticks readings' s'
      | ZeroDivisionError s' => ZeroDivisionError s'
      end
  end.
End FPSMixin.
Arguments state : clear implicits.
Arguments tick_result : clear implicits.
End FPSMixin.

(** * Auxiliary definitions *)

(** ** Well-formed stores and layers *)

(** The subscribers of [p] are distinct queues that have been created. *)
Definition port_ok (w : world) (p : nat) : Prop :=
  NoDup (out_queues w p) /\ Forall (fun q => q < next_id w) (out_queues w p).

(** Every port is well formed, no queue is subscribed to two ports, and only
    created ports have an entry. *)
Definition world_ok (w : world) : Prop :=
  (forall p, port_ok w p)
  /\ (forall p1 p2 q, q ∈ out_queues w p1 -> q ∈ out_queues w p2 -> p1 = p2)
  /\ (forall p, next_id w <= p -> port_objs w !! p = None).

(** Worlds that differ in queue contents only. *)
Definition same_ports (w w' : world) : Prop :=
  next_id w' = next_id w /\ port_objs w' = port_objs w.

(** The calls a multi-port layer receives from the code around it. *)
Inductive op : Type :=
  | RegisterPort (port : string) (auto : bool)
  | GetPort (port : string)
  | Subscribe (port : string)
  | GetOutput
  | HandleOutput (data : value).

(** The state after a call; the state reached at a raise is the state the
    caller goes on with. *)
Definition run_op (o : op) (s : mstate) : mstate :=
  match o with
  | RegisterPort port auto => snd (MultiOutputMixin._register_port port auto s)
  | GetPort port => snd (MultiOutputMixin.get_port port s)
  | Subscribe port => snd (MultiOutputMixin.subscribe port s)
  | GetOutput => snd (MultiOutputMixin.get_output s)
  | HandleOutput data => snd (MultiOutputMixin.handle_output data s)
  end.

Definition run_ops (os : list op) (s : mstate) : mstate :=
  foldl (fun s' o => run_op o s') s os.

(** All [Port] objects a layer holds. *)
Definition port_ids (l : multi_layer) : list nat :=
  out_port l :: map snd (ports l) ++ map snd (auto_ports l).

(** The store is well formed, each map has distinct keys, and the layer's
    ports are distinct objects that have been created. *)
Definition mstate_ok (s : mstate) : Prop :=
  world_ok (store s)
  /\ NoDup (Dict.keys (ports (layer s)))
  /\ NoDup (Dict.keys (auto_ports (layer s)))
  /\ NoDup (port_ids (layer s))
  /\ Forall (fun p => p < next_id (store s)) (port_ids (layer s)).

(** The port the dispatch loop picks for [key]. *)
Definition resolve (l : multi_layer) (key : string) : option nat :=
  match Dict.get key (ports l) with
  | Some p => Some p
  | None => Dict.get key (auto_ports l)
  end.

(** Calls of [Port.handle_output], in order. *)
Definition emit_all (es : list (nat * value)) (w : world) : world :=
  foldl (fun w' e => Port.handle_output (fst e) (snd e) w') w es.

(** The emissions the dispatch loop makes for the keys [ks] on a dictionary. *)
Definition named_emissions (l : multi_layer) (kvs : list (string * value))
    (ks : list string) : list (nat * value) :=
  omap (fun key => match resolve l key, Dict.get key kvs with
                   | Some p, Some v => Some (p, v)
                   | _, _ => None
                   end) ks.

(** Dispatch leaves the layer's fields alone and touches queue contents
    only, whatever the data and whether or not it raises. *)
Definition emits_only (s s' : mstate) : Prop :=
  layer s' = layer s /\ same_ports (store s) (store s').

(** What the dispatch loop sends to port [p] for [key]. *)
Definition sent_to (l : multi_layer) (kvs : list (string * value)) (p : nat)
    (key : string) : list value :=
  match resolve l key, Dict.get key kvs with
  | Some p', Some v => if decide (p' = p) then emitted v else []
  | _, _ => []
  end.

(** ** Runs of the main loop *)

(** The ticks at which an iteration begins: those before the first one that
    finds the stop event set. *)
Fixpoint executed (script : list tick) : list tick :=
  match script with
  | [] => []
  | t :: script' => if stop_is_set t then [] else t :: executed script'
  end.

(** The state a run has reached, when no iteration hung. *)
Definition state_of {U} (r : BaseLayer.loop_result U)
  : option (BaseLayer.lstate U) :=
  match r with
  | BaseLayer.Exited s | BaseLayer.Running s => Some s
  | BaseLayer.HungBlocked | BaseLayer.HungOutOfFuel => None
  end.

(** ** States used in the examples *)

(** A port (object 0) with two subscribers (queues 1 and 2). *)
Definition two_subscribers : world :=
  snd (Port.get_output 0 (snd (Port.get_output 0 (snd (Port.new empty_world))))).

(** The layer of the dispatch example: ports "a" and "b" declared (objects 1
    and 2), one subscriber on each (queues 3 and 4) and one on the primary
    port (object 0, queue 5). *)
Definition ab_ops : list op :=
  [RegisterPort "a" false; RegisterPort "b" false;
   Subscribe "a"; Subscribe "b"; GetOutput].

Definition ab_state : mstate :=
  run_ops ab_ops (MultiOutputMixin.init empty_world).

Definition ac_value : value := VDict [("a", VInt 1); ("c", VInt 2)].

(** ** Further invariants *)

(** No queue holds the "no value" marker. *)
Definition marker_free (w : world) : Prop :=
  forall q, Forall (fun v => is_none v = false) (contents w q).

(** The control queue of a layer is not a subscriber of its own output
    port. *)
Definition no_feedback {U} (s : BaseLayer.lstate U) : Prop :=
  match BaseLayer.signal_in (BaseLayer.self s) with
  | Some qs =>
      qs ∉ out_queues (BaseLayer.store s) (BaseLayer.out_port (BaseLayer.self s))
  | None => True
  end.

(** The values the loop passed to [handle_output]. *)
Definition outputs (tr : list event) : list value :=
  omap (fun e => match e with EvHandleOutput d => Some d | _ => None end) tr.

(** [BaseLayer] without a control input, one subscriber (queue 1) on its
    output port (port 0). *)
Definition uncontrolled : BaseLayer.lstate unit :=
  let '(p, w1) := Port.new empty_world in
  let '(_, w2) := Port.get_output p w1 in
  BaseLayer.init None p tt w2.

(** [two_subscribers] after three emissions, and after the subscriber on
    queue 1 has fetched what reached it. *)
Definition fed_subscribers : world :=
  Port.handle_outputs 0 [VInt 1; VNone; VInt 2] two_subscribers.

Definition drained_subscriber : world :=
  match TransformMixin.get_inputs 2 (Some 1) fed_subscribers with
  | Some (_, w) => w
  | None => fed_subscribers
  end.

(** Going from [w] to [w'], no created port has lost a subscriber. *)
Definition subscribers_kept (w w' : world) : Prop :=
  next_id w <= next_id w'
  /\ forall p q, p < next_id w -> q ∈ out_queues w p -> q ∈ out_queues w' p.

(** Two ports with one subscriber each (port 0 with queue 1, port 2 with queue
    3), after 9 was emitted on port 2. *)
Definition two_ports : world :=
  Port.handle_outputs 2 [VInt 9]
    (snd (Port.get_output 2 (snd (Port.new
       (snd (Port.get_output 0 (snd (Port.new empty_world)))))))).

(** The layer of the dispatch example after "c" has been resolved (port 6). *)
Definition c_resolved : mstate := snd (MultiOutputMixin.get_port "c" ab_state).

(** * Properties *)

(** A queue subscribed to two different ports contradicts [world_ok]. *)
Ltac clash_ports Hdisj :=
  match goal with
  | Ha : ?q ∈ out_queues _ ?p1, Hb : ?q ∈ out_queues _ ?p2 |- _ =>
      pose proof (Hdisj _ _ _ Ha Hb); congruence
  end.

(** ** The model on small inputs *)

Example port_demo :
  let w := Port.handle_outputs 0 [VInt 1; VNone; VInt 2] two_subscribers in
  out_queues two_subscribers 0 = [1; 2]
  /\ contents w 1 = [VInt 1; VInt 2] /\ contents w 2 = [VInt 1; VInt 2].
Proof. vm_compute. done. Qed.

Example ab_state_dispatch :
  let '(r, s') := MultiOutputMixin.handle_output ac_value ab_state in
  layer ab_state = MultiLayer 0 [("a", 1); ("b", 2)] []
  /\ out_queues (store ab_state) 1 = [3]
  /\ out_queues (store ab_state) 2 = [4]
  /\ out_queues (store ab_state) 0 = [5]
  /\ r = Ok tt
  /\ layer s' = layer ab_state
  /\ contents (store s') 3 = [VInt 1]
  /\ contents (store s') 4 = []
  /\ contents (store s') 5 = [ac_value].
Proof. vm_compute. done. Qed.

Example plain_run :
  match Plain.process_loop
          [Tick false (VInt 1) [VStr "x"; VStr "y"];
           Tick false VNone [VStr "z"];
           Tick false (VInt 2) [];
           Tick true (VInt 3) []] Plain.start with
  | BaseLayer.Exited s =>
      BaseLayer.trace s =
        [EvGetInput (VInt 1); EvHandleSignal (VStr "x"); EvHandleSignal (VStr "y");
         EvPostInit (VInt 1); EvTransform (VInt 1); EvHandleOutput (VInt 1);
         EvGetInput VNone;
         EvGetInput (VInt 2); EvHandleSignal (VStr "z");
         EvTransform (VInt 2); EvHandleOutput (VInt 2)]
      /\ BaseLayer.signal (BaseLayer.self s) = VStr "z"
      /\ contents (BaseLayer.store s) 2 = [VInt 1; VInt 2]
  | _ => False
  end.
Proof. vm_compute. done. Qed.

(** ** Queues and ports in the store *)

Lemma contents_put q q' v w :
  contents (Queue.put q v w) q' =
  if decide (q = q') then contents w q ++ [v] else contents w q'.
Proof.
  unfold contents at 1. simpl. rewrite lookup_insert.
  case_decide; subst; done.
Qed.

Lemma put_all_contents v qs : forall w q',
  NoDup qs ->
  contents (foldl (fun w' q => Queue.put q v w') w qs) q' =
  contents w q' ++ (if decide (q' ∈ qs) then [v] else []).
Proof.
  induction qs as [|q qs IH]; intros w q' Hnd.
  - case_decide; [set_solver | by rewrite app_nil_r].
  - apply NoDup_cons in Hnd as [Hq Hnd]. cbn [foldl].
    rewrite IH by done. rewrite contents_put.
    destruct (decide (q = q')) as [->|Hne].
    + rewrite decide_False by done. rewrite decide_True by set_solver.
      by rewrite app_nil_r.
    + destruct (decide (q' ∈ qs)).
      * rewrite decide_True; [done | rewrite elem_of_cons; by right].
      * rewrite decide_False; [done | rewrite elem_of_cons; by intros [?|?]].
Qed.

Lemma put_all_frame v qs : forall w,
  next_id (foldl (fun w' q => Queue.put q v w') w qs) = next_id w
  /\ port_objs (foldl (fun w' q => Queue.put q v w') w qs) = port_objs w.
Proof.
  induction qs as [|q qs IH]; intros w; simpl; [done |].
  destruct (IH (Queue.put q v w)) as [-> ->]. done.
Qed.

Lemma handle_output_frame p v w :
  next_id (Port.handle_output p v w) = next_id w
  /\ port_objs (Port.handle_output p v w) = port_objs w.
Proof.
  unfold Port.handle_output. destruct (is_none v); [done | apply put_all_frame].
Qed.

Lemma handle_output_out_queues p v w p' :
  out_queues (Port.handle_output p v w) p' = out_queues w p'.
Proof.
  unfold out_queues. by rewrite (proj2 (handle_output_frame p v w)).
Qed.

Lemma handle_output_contents p v w q :
  NoDup (out_queues w p) ->
  contents (Port.handle_output p v w) q =
  contents w q ++ (if decide (q ∈ out_queues w p) then emitted v else []).
Proof.
  intros Hnd. unfold Port.handle_output, emitted.
  destruct (is_none v).
  - case_decide; by rewrite app_nil_r.
  - by apply put_all_contents.
Qed.

Lemma handle_outputs_out_queues p vs : forall w p',
  out_queues (Port.handle_outputs p vs w) p' = out_queues w p'.
Proof.
  unfold Port.handle_outputs.
  induction vs as [|v vs IH]; intros w p'; simpl; [done |].
  by rewrite IH, handle_output_out_queues.
Qed.

Lemma handle_outputs_next_id p vs : forall w,
  next_id (Port.handle_outputs p vs w) = next_id w.
Proof.
  unfold Port.handle_outputs.
  induction vs as [|v vs IH]; intros w; simpl; [done |].
  by rewrite IH, (proj1 (handle_output_frame p v w)).
Qed.

Lemma handle_outputs_contents p vs : forall w q,
  NoDup (out_queues w p) -> q ∈ out_queues w p ->
  contents (Port.handle_outputs p vs w) q = contents w q ++ non_marker vs.
Proof.
  unfold Port.handle_outputs, non_marker.
  induction vs as [|v vs IH]; intros w q Hnd Hq; simpl.
  - by rewrite app_nil_r.
  - rewrite IH by (by rewrite handle_output_out_queues).
    rewrite handle_output_contents by done.
    rewrite decide_True by done. unfold emitted. rewrite filter_cons.
    destruct (is_none v) eqn:Hv.
    + rewrite decide_False by done. by rewrite app_nil_r.
    + rewrite decide_True by done. by rewrite <- app_assoc.
Qed.

(** [get_output] on a created port keeps the store well formed, and so do the
    other operations of [Port]. *)
Lemma out_queues_get_output p w p' :
  out_queues (snd (Port.get_output p w)) p' =
  if decide (p = p') then out_queues w p ++ [next_id w] else out_queues w p'.
Proof.
  unfold Port.get_output, out_queues at 1. simpl. rewrite lookup_insert.
  case_decide; subst; done.
Qed.

Lemma empty_world_ok : world_ok empty_world.
Proof.
  assert (Hq : forall p, out_queues empty_world p = []).
  { intros p. unfold out_queues. simpl. by rewrite lookup_empty. }
  split; [| split].
  - intros p. unfold port_ok. rewrite Hq. split; constructor.
  - intros p1 p2 q. rewrite Hq. set_solver.
  - intros p _. apply lookup_empty.
Qed.

Lemma handle_output_ok p v w : world_ok w -> world_ok (Port.handle_output p v w).
Proof.
  intros (Hp & Hdisj & Hfresh).
  destruct (handle_output_frame p v w) as [Hn Hpo].
  repeat split.
  - rewrite handle_output_out_queues. apply Hp.
  - rewrite handle_output_out_queues, Hn. apply Hp.
  - intros p1 p2 q. rewrite !handle_output_out_queues. apply Hdisj.
  - intros p'. rewrite Hn, Hpo. apply Hfresh.
Qed.

Lemma port_new_ok w : world_ok w -> world_ok (snd (Port.new w)).
Proof.
  intros (Hp & Hdisj & Hfresh).
  assert (Hq : forall p, out_queues (snd (Port.new w)) p = out_queues w p).
  { intros p. unfold out_queues. simpl. rewrite lookup_insert.
    case_decide; [subst; by rewrite Hfresh | done]. }
  repeat split.
  - rewrite Hq. apply Hp.
  - rewrite Hq. simpl. eapply Forall_impl; [apply Hp | simpl; lia].
  - intros p1 p2 q. rewrite !Hq. apply Hdisj.
  - intros p Hle. simpl in *. rewrite lookup_insert_ne by lia. apply Hfresh. lia.
Qed.

Lemma get_output_ok p w :
  world_ok w -> p < next_id w -> world_ok (snd (Port.get_output p w)).
Proof.
  intros (Hp & Hdisj & Hfresh) Hlt.
  assert (Hnew : forall p', next_id w ∉ out_queues w p').
  { intros p' Hin. destruct (Hp p') as [_ Hall].
    rewrite Forall_forall in Hall. apply Hall in Hin. lia. }
  repeat split.
  - rewrite out_queues_get_output. case_decide; [| apply Hp].
    apply NoDup_app. split; [apply Hp |]. split; [| apply NoDup_singleton].
    intros q Hq Hq'. apply list_elem_of_singleton in Hq'. subst q.
    by eapply Hnew.
  - rewrite out_queues_get_output. simpl. case_decide.
    + apply Forall_app. split; [| repeat constructor].
      eapply Forall_impl; [apply Hp | simpl; lia].
    + eapply Forall_impl; [apply Hp | simpl; lia].
  - intros p1 p2 q. rewrite !out_queues_get_output.
    destruct (decide (p = p1)) as [<-|N1], (decide (p = p2)) as [<-|N2];
      rewrite ?elem_of_app, ?list_elem_of_singleton; intros H1 H2.
    + done.
    + destruct H1 as [H1 | ->]; [eauto | by apply Hnew in H2].
    + destruct H2 as [H2 | ->]; [eauto | by apply Hnew in H1].
    + eauto.
  - intros p' Hle. simpl in *. rewrite lookup_insert_ne by lia. apply Hfresh. lia.
Qed.

Lemma non_marker_all vs :
  Forall (fun v => is_none v = false) vs -> non_marker vs = vs.
Proof.
  unfold non_marker. induction 1 as [|v vs Hv _ IH]; [done |].
  rewrite filter_cons, decide_True by done. by rewrite IH.
Qed.

(** C1. On any port whose subscribers are distinct queues, a sequence of
    emissions appends to every subscribed queue exactly the non-marker values
    of the sequence, in emission order, whatever the number of subscribers;
    emitting [None] changes nothing in the store. *)
Theorem C1_fan_out (w : world) (p : nat) (vs : list value) :
  NoDup (out_queues w p) ->
  (forall q, q ∈ out_queues w p ->
     contents (Port.handle_outputs p vs w) q = contents w q ++ non_marker vs)
  /\ Port.handle_output p VNone w = w.
Proof.
  intros Hnd. split; [| done].
  intros q Hq. by apply handle_outputs_contents.
Qed.

(** C9. A queue obtained from [get_output] after a first sequence of emissions
    is a new subscriber, is empty, and after a second sequence holds exactly
    the non-marker values of the second sequence (all of it when it has no
    marker). *)
Theorem C9_no_replay (w : world) (p : nat) (before after : list value) :
  port_ok w p ->
  let w1 := Port.handle_outputs p before w in
  let q := fst (Port.get_output p w1) in
  let w2 := snd (Port.get_output p w1) in
  (q ∉ out_queues w1 p)
  /\ (q ∈ out_queues w2 p)
  /\ contents w2 q = []
  /\ contents (Port.handle_outputs p after w2) q = non_marker after
  /\ (Forall (fun v => is_none v = false) after ->
      contents (Port.handle_outputs p after w2) q = after).
Proof.
  intros [Hnd Hlt] w1 q w2.
  assert (Hq : q = next_id w) by apply handle_outputs_next_id.
  assert (Hout : out_queues w2 p = out_queues w p ++ [q]).
  { unfold w2. rewrite out_queues_get_output, decide_True by done.
    unfold w1 at 1. rewrite handle_outputs_out_queues. by rewrite Hq, <- (handle_outputs_next_id p before w). }
  assert (Hnew : q ∉ out_queues w p).
  { intros Hin. rewrite Forall_forall in Hlt. apply Hlt in Hin. lia. }
  assert (Hempty : contents w2 q = []).
  { unfold contents, w2, q. simpl. by rewrite lookup_insert_eq. }
  assert (Hrecv : contents (Port.handle_outputs p after w2) q = non_marker after).
  { rewrite handle_outputs_contents.
    - by rewrite Hempty.
    - rewrite Hout. apply NoDup_app. split; [done |]. split; [| apply NoDup_singleton].
      intros x Hx Hx'. apply list_elem_of_singleton in Hx'. by subst x.
    - rewrite Hout, elem_of_app, list_elem_of_singleton. by right. }
  repeat split.
  - unfold w1. by rewrite handle_outputs_out_queues.
  - rewrite Hout, elem_of_app, list_elem_of_singleton. by right.
  - done.
  - done.
  - intros Hall. by rewrite Hrecv, non_marker_all.
Qed.

(** ** Multi-port layers *)

Section DictFacts.
Context {V : Type}.
Implicit Types (d : list (string * V)) (k : string) (v : V).

Lemma dict_get_set_eq k v d : Dict.get k (Dict.set k v d) = Some v.
Proof.
  induction d as [|[k' v'] d IH]; simpl.
  - by rewrite String.eqb_refl.
  - destruct (String.eqb k k') eqn:E; simpl; rewrite ?String.eqb_refl, ?E; done.
Qed.

Lemma dict_get_set_ne k k' v d :
  k <> k' -> Dict.get k' (Dict.set k v d) = Dict.get k' d.
Proof.
  intros Hne. induction d as [|[k0 v0] d IH]; simpl.
  - apply String.eqb_neq in Hne. rewrite String.eqb_sym in Hne. by rewrite Hne.
  - destruct (String.eqb k k0) eqn:E; simpl.
    + apply String.eqb_eq in E. subst k0.
      assert (String.eqb k' k = false) as -> by (apply String.eqb_neq; congruence).
      done.
    + by rewrite IH.
Qed.

Lemma dict_set_fresh k v d :
  Dict.get k d = None -> Dict.set k v d = d ++ [(k, v)].
Proof.
  induction d as [|[k' v'] d IH]; simpl; [done |].
  destruct (String.eqb k k'); [done |]. intros H. by rewrite IH.
Qed.

Lemma dict_get_keys k d : k ∈ Dict.keys d <-> is_Some (Dict.get k d).
Proof.
  unfold Dict.keys. induction d as [|[k' v'] d IH]; simpl.
  - split; [by intros ?%elem_of_nil | by intros [? ?]].
  - rewrite elem_of_cons. destruct (String.eqb_spec k k') as [->|Hne].
    + split; [by eexists | by left].
    + rewrite <- IH. simpl. tauto.
Qed.

Lemma dict_get_elem k v d : Dict.get k d = Some v -> (k, v) ∈ d.
Proof.
  induction d as [|[k' v'] d IH]; simpl; [done |].
  destruct (String.eqb_spec k k') as [->|Hne].
  - intros [= ->]. by left.
  - intros H. right. by apply IH.
Qed.

Lemma dict_get_split k v d :
  Dict.get k d = Some v -> NoDup (Dict.keys d) ->
  exists d1 d2, d = d1 ++ (k, v) :: d2
                /\ (k ∉ Dict.keys d1) /\ (k ∉ Dict.keys d2).
Proof.
  unfold Dict.keys. induction d as [|[k' v'] d IH]; simpl; [done |].
  intros Hget Hnd. apply NoDup_cons in Hnd as [Hk' Hnd].
  destruct (String.eqb_spec k k') as [->|Hne].
  - injection Hget as ->. exists [], d. simpl. split; [done |].
    split; [by intros ?%elem_of_nil | done].
  - destruct (IH Hget Hnd) as (d1 & d2 & -> & H1 & H2).
    exists ((k', v') :: d1), d2. simpl. split; [done |]. split; [| done].
    rewrite elem_of_cons. by intros [?|?].
Qed.
End DictFacts.

Lemma same_ports_refl w : same_ports w w.
Proof. done. Qed.

Lemma same_ports_trans w1 w2 w3 :
  same_ports w1 w2 -> same_ports w2 w3 -> same_ports w1 w3.
Proof. intros [? ?] [? ?]. split; congruence. Qed.

Lemma same_ports_out_queues w w' p :
  same_ports w w' -> out_queues w' p = out_queues w p.
Proof. intros [_ H]. unfold out_queues. by rewrite H. Qed.

Lemma same_ports_ok w w' : same_ports w w' -> world_ok w -> world_ok w'.
Proof.
  intros Hs (Hp & Hdisj & Hfresh).
  assert (Hq := fun p => same_ports_out_queues w w' p Hs).
  destruct Hs as [Hn Hpo].
  split; [| split].
  - intros p. unfold port_ok. rewrite Hq, Hn. apply Hp.
  - intros p1 p2 q. rewrite !Hq. apply Hdisj.
  - intros p. rewrite Hn, Hpo. apply Hfresh.
Qed.

Lemma emit_all_same_ports es : forall w, same_ports w (emit_all es w).
Proof.
  unfold emit_all. induction es as [|[p v] es IH]; intros w; simpl; [done |].
  eapply same_ports_trans; [| apply IH]. apply handle_output_frame.
Qed.

Lemma emit_all_app es1 es2 w :
  emit_all (es1 ++ es2) w = emit_all es2 (emit_all es1 w).
Proof. unfold emit_all. apply foldl_app. Qed.

(** What a sequence of emissions leaves in a queue. *)
Lemma emit_all_contents es q : forall w,
  world_ok w ->
  contents (emit_all es w) q =
  contents w q
  ++ flat_map (fun e => if decide (q ∈ out_queues w (fst e))
                        then emitted (snd e) else []) es.
Proof.
  induction es as [|[p v] es IH]; intros w Hok.
  - simpl. by rewrite app_nil_r.
  - change (emit_all ((p, v) :: es) w)
      with (emit_all es (Port.handle_output p v w)).
    rewrite IH by (by apply handle_output_ok).
    rewrite handle_output_contents by apply Hok.
    rewrite <- app_assoc. f_equal. simpl. f_equal.
    apply flat_map_ext. intros [p' v']. simpl.
    by rewrite handle_output_out_queues.
Qed.

Lemma resolve_keys l key :
  key ∈ Dict.keys (ports l) ++ Dict.keys (auto_ports l) ->
  is_Some (resolve l key).
Proof.
  unfold resolve. rewrite elem_of_app, !dict_get_keys.
  intros [[p Hp] | [p Hp]]; rewrite ?Hp; [by eexists |].
  destruct (Dict.get key (ports l)); by eexists.
Qed.

Lemma handle_output_key_dict l w kvs key :
  is_Some (resolve l key) ->
  MultiOutputMixin.handle_output_key (VDict kvs) key (MState l w) =
  (Ok tt, MState l (emit_all (named_emissions l kvs [key]) w)).
Proof.
  intros [p Hp]. unfold named_emissions. simpl. rewrite Hp.
  unfold resolve in Hp.
  unfold MultiOutputMixin.handle_output_key, bind, gets, ret, raise,
    py_contains, py_getitem, Dict.mem, MultiOutputMixin.port_handle_output,
    modify. simpl.
  destruct (Dict.get key (ports l)) as [p'|]; simpl.
  - injection Hp as ->. destruct (Dict.get key kvs); done.
  - rewrite Hp. simpl. destruct (Dict.get key kvs); done.
Qed.

Lemma for_each_dict l kvs ks : forall w,
  Forall (fun key => is_Some (resolve l key)) ks ->
  for_each ks (MultiOutputMixin.handle_output_key (VDict kvs)) (MState l w) =
  (Ok tt, MState l (emit_all (named_emissions l kvs ks) w)).
Proof.
  induction ks as [|key ks IH]; intros w Hall; [done |].
  apply Forall_cons in Hall as [Hkey Hall].
  simpl. unfold bind at 1. rewrite handle_output_key_dict by done.
  rewrite IH by done. f_equal. f_equal.
  rewrite <- emit_all_app. f_equal.
  unfold named_emissions. simpl.
  destruct (resolve l key); [destruct (Dict.get key kvs) |]; done.
Qed.

(** Dispatch of a dictionary never raises; it makes the named emissions in key
    order and then emits the whole dictionary on the primary port. *)
Lemma handle_output_dict s kvs :
  MultiOutputMixin.handle_output (VDict kvs) s =
  (Ok tt,
   MState (layer s)
     (emit_all
        (named_emissions (layer s) kvs
           (Dict.keys (ports (layer s)) ++ Dict.keys (auto_ports (layer s)))
         ++ [(out_port (layer s), VDict kvs)])
        (store s))).
Proof.
  destruct s as [l w]. unfold MultiOutputMixin.handle_output. simpl.
  unfold bind at 1. unfold gets at 1. simpl.
  unfold bind at 1. rewrite for_each_dict.
  - by rewrite emit_all_app.
  - apply Forall_forall. intros key. apply resolve_keys.
Qed.

Lemma ac_dispatch_store (s : mstate) (pa pb : nat) :
  ports (layer s) = [("a", pa); ("b", pb)] ->
  auto_ports (layer s) = [] ->
  MultiOutputMixin.handle_output ac_value s =
  (Ok tt, MState (layer s)
            (emit_all [(pa, VInt 1); (out_port (layer s), ac_value)] (store s))).
Proof.
  intros Hp Ha. unfold ac_value. rewrite handle_output_dict.
  unfold named_emissions, resolve. rewrite Hp, Ha. reflexivity.
Qed.

(** C2, amended. With exactly "a" and "b" declared and no auto-created port,
    dispatching [{"a": 1, "c": 2}] returns normally, leaves both port maps as
    they were (no port "c" exists afterwards and no [Port] is created), puts
    1 on the subscribers of "a", nothing on those of "b", the whole dictionary
    on the subscribers of the primary port, and nothing on any other queue. *)
Theorem C2_dispatch_declared_only (s : mstate) (pa pb : nat) :
  world_ok (store s) ->
  ports (layer s) = [("a", pa); ("b", pb)] ->
  auto_ports (layer s) = [] ->
  NoDup [out_port (layer s); pa; pb] ->
  exists s',
    MultiOutputMixin.handle_output ac_value s = (Ok tt, s')
    /\ layer s' = layer s
    /\ resolve (layer s') "c" = None
    /\ same_ports (store s) (store s')
    /\ (forall q, q ∈ out_queues (store s) pa ->
          contents (store s') q = contents (store s) q ++ [VInt 1])
    /\ (forall q, q ∈ out_queues (store s) pb ->
          contents (store s') q = contents (store s) q)
    /\ (forall q, q ∈ out_queues (store s) (out_port (layer s)) ->
          contents (store s') q = contents (store s) q ++ [ac_value])
    /\ (forall q, q ∉ out_queues (store s) pa ->
          q ∉ out_queues (store s) (out_port (layer s)) ->
          contents (store s') q = contents (store s) q).
Proof.
  intros Hok Hp Ha Hnd.
  eexists. split; [by apply (ac_dispatch_store s pa pb) |]. cbn [layer store].
  split; [done |].
  split; [unfold resolve; by rewrite Hp, Ha |].
  split; [apply emit_all_same_ports |].
  assert (Hdisj := proj1 (proj2 Hok)).
  apply NoDup_cons in Hnd as [H0 Hnd]. apply NoDup_cons in Hnd as [Hab _].
  rewrite !elem_of_cons in H0. rewrite list_elem_of_singleton in Hab.
  assert (H0a : out_port (layer s) <> pa) by tauto.
  assert (H0b : out_port (layer s) <> pb) by tauto.
  repeat split; intros q; rewrite emit_all_contents by done; simpl; intros;
    repeat case_decide; rewrite ?app_nil_r; try done; exfalso;
    clash_ports Hdisj.
Qed.

(** C2 as stated fails: on the layer with "a" and "b" declared, dispatching
    [{"a": 1, "c": 2}] creates no port "c" in either map and no object at all,
    so 2 is emitted on no port. *)
Lemma C2_no_port_c_created :
  let s := ab_state in
  let s' := snd (MultiOutputMixin.handle_output ac_value s) in
  ~ (exists pc, Dict.get "c" (auto_ports (layer s')) = Some pc)
  /\ auto_ports (layer s') = []
  /\ Dict.get "c" (ports (layer s')) = None
  /\ port_objs (store s') = port_objs (store s)
  /\ next_id (store s') = next_id (store s).
Proof.
  vm_compute. repeat split; try done. by intros [pc Hpc].
Qed.

(** *** Registration and resolution *)

Lemma dict_mem_get {V} k (d : list (string * V)) :
  Dict.mem k d = false <-> Dict.get k d = None.
Proof. unfold Dict.mem. destruct (Dict.get k d); split; done. Qed.

Lemma register_port_exists port auto s p :
  Dict.get port (MultiOutputMixin.port_list auto s) = Some p ->
  MultiOutputMixin._register_port port auto s =
  (Raise (NameError ("Port " +:+ port +:+ " already exists")), s).
Proof.
  intros H. unfold MultiOutputMixin._register_port, bind, gets, Dict.mem.
  by rewrite H.
Qed.

Lemma register_port_new port auto s :
  Dict.get port (MultiOutputMixin.port_list auto s) = None ->
  MultiOutputMixin._register_port port auto s =
  (Ok tt,
   MultiOutputMixin.set_port_list auto
     (MultiOutputMixin.port_list auto s ++ [(port, next_id (store s))])
     (MState (layer s) (snd (Port.new (store s))))).
Proof.
  intros H. unfold MultiOutputMixin._register_port, bind, gets, Dict.mem.
  rewrite H. unfold MultiOutputMixin.new_port, modify. simpl.
  rewrite dict_set_fresh; [done |]. by destruct auto.
Qed.

Lemma get_port_declared port s p :
  Dict.get port (ports (layer s)) = Some p ->
  MultiOutputMixin.get_port port s = (Ok p, s).
Proof. intros H. unfold MultiOutputMixin.get_port, bind, gets. by rewrite H. Qed.

Lemma get_port_auto port s p :
  Dict.get port (ports (layer s)) = None ->
  Dict.get port (auto_ports (layer s)) = Some p ->
  MultiOutputMixin.get_port port s = (Ok p, s).
Proof.
  intros H1 H2. unfold MultiOutputMixin.get_port, bind, gets. by rewrite H1, H2.
Qed.

Lemma get_port_fresh port s :
  Dict.get port (ports (layer s)) = None ->
  Dict.get port (auto_ports (layer s)) = None ->
  MultiOutputMixin.get_port port s =
  (Ok (next_id (store s)),
   MState (MultiLayer (out_port (layer s)) (ports (layer s))
             (auto_ports (layer s) ++ [(port, next_id (store s))]))
          (snd (Port.new (store s)))).
Proof.
  intros H1 H2. unfold MultiOutputMixin.get_port.
  unfold bind at 1. unfold gets at 1. rewrite H1.
  unfold bind at 1. unfold gets at 1. rewrite H2.
  unfold bind at 1. rewrite register_port_new by done.
  unfold bind, gets. cbn [layer store MultiOutputMixin.set_port_list
    MultiOutputMixin.port_list auto_ports].
  rewrite <- (dict_set_fresh port (next_id (store s))) by done.
  by rewrite dict_get_set_eq.
Qed.

(** Resolution always returns a port. *)
Lemma get_port_total port s :
  exists p s', MultiOutputMixin.get_port port s = (Ok p, s').
Proof.
  destruct (Dict.get port (ports (layer s))) as [p|] eqn:H1.
  { exists p, s. by apply get_port_declared. }
  destruct (Dict.get port (auto_ports (layer s))) as [p|] eqn:H2.
  { exists p, s. by apply get_port_auto. }
  eexists _, _. by apply get_port_fresh.
Qed.

(** *** What a call can change *)

Lemma emits_only_trans s1 s2 s3 :
  emits_only s1 s2 -> emits_only s2 s3 -> emits_only s1 s3.
Proof.
  intros [H1 H1'] [H2 H2']. split; [congruence |].
  by eapply same_ports_trans.
Qed.

Lemma port_handle_output_emits p v s :
  emits_only s (snd (MultiOutputMixin.port_handle_output p v s)).
Proof. split; [done | apply handle_output_frame]. Qed.

Lemma handle_output_key_emits data key s :
  emits_only s (snd (MultiOutputMixin.handle_output_key data key s)).
Proof.
  unfold MultiOutputMixin.handle_output_key, bind, gets, ret, raise.
  destruct (Dict.get key (ports (layer s))) as [p|];
    [| destruct (Dict.get key (auto_ports (layer s))) as [p|]];
    try (split; done);
    (destruct data as [| n | str | kvs]; simpl; try (split; done);
     [ destruct (is_substring key str); split; done
     | unfold Dict.mem; destruct (Dict.get key kvs); simpl;
       [apply port_handle_output_emits | split; done] ]).
Qed.

Lemma for_each_emits data ks : forall s,
  emits_only s (snd (for_each ks (MultiOutputMixin.handle_output_key data) s)).
Proof.
  induction ks as [|key ks IH]; intros s; simpl; [split; done |].
  unfold bind. pose proof (handle_output_key_emits data key s) as Hk.
  destruct (MultiOutputMixin.handle_output_key data key s) as [[[]|e] s1];
    simpl in *; [| done].
  eapply emits_only_trans; [apply Hk | apply IH].
Qed.

Lemma handle_output_emits data s :
  emits_only s (snd (MultiOutputMixin.handle_output data s)).
Proof.
  unfold MultiOutputMixin.handle_output.
  unfold bind at 1. unfold gets at 1.
  unfold bind at 1.
  pose proof (for_each_emits data
    (Dict.keys (ports (layer s)) ++ Dict.keys (auto_ports (layer s))) s) as Hf.
  destruct (for_each _ _ s) as [[[]|e] s1]; simpl in *; [| done].
  eapply emits_only_trans; [apply Hf |].
  unfold MultiOutputMixin.super_handle_output, bind, gets.
  apply port_handle_output_emits.
Qed.

Lemma dict_get_app_l {V} k (v : V) d d' :
  Dict.get k d = Some v -> Dict.get k (d ++ d') = Some v.
Proof.
  induction d as [|[k0 v0] d IH]; simpl; [done |].
  destruct (String.eqb k k0); [done | apply IH].
Qed.

Lemma dict_get_snoc_ne {V} k k' (v : V) d :
  k' <> k -> Dict.get k (d ++ [(k', v)]) = Dict.get k d.
Proof.
  intros Hne. induction d as [|[k0 v0] d IH]; simpl.
  - assert (String.eqb k k' = false) as ->; [| done].
    apply String.eqb_neq. congruence.
  - destruct (String.eqb k k0); [done | apply IH].
Qed.

(** The layer after one call: unchanged, or one of the two maps extended at
    its end by a name it did not have, bound to the next new object. *)
Lemma run_op_layer o s :
  layer (run_op o s) = layer s
  \/ (exists port,
        o = RegisterPort port false
        /\ Dict.get port (ports (layer s)) = None
        /\ layer (run_op o s) =
           MultiLayer (out_port (layer s))
             (ports (layer s) ++ [(port, next_id (store s))])
             (auto_ports (layer s)))
  \/ (exists port,
        Dict.get port (auto_ports (layer s)) = None
        /\ layer (run_op o s) =
           MultiLayer (out_port (layer s)) (ports (layer s))
             (auto_ports (layer s) ++ [(port, next_id (store s))])).
Proof.
  assert (Hget : forall port,
    layer (snd (MultiOutputMixin.get_port port s)) = layer s
    \/ (Dict.get port (auto_ports (layer s)) = None
        /\ layer (snd (MultiOutputMixin.get_port port s)) =
           MultiLayer (out_port (layer s)) (ports (layer s))
             (auto_ports (layer s) ++ [(port, next_id (store s))]))).
  { intros port.
    destruct (Dict.get port (ports (layer s))) as [p|] eqn:H1.
    { left. by rewrite (get_port_declared _ _ _ H1). }
    destruct (Dict.get port (auto_ports (layer s))) as [p|] eqn:H2.
    { left. by rewrite (get_port_auto _ _ _ H1 H2). }
    right. by rewrite (get_port_fresh _ _ H1 H2). }
  destruct o as [port auto | port | port | | data]; simpl.
  - destruct (Dict.get port (MultiOutputMixin.port_list auto s)) as [p|] eqn:H.
    + left. by rewrite (register_port_exists _ _ _ _ H).
    + right. rewrite (register_port_new _ _ _ H).
      destruct auto; simpl in *; [right | left]; exists port; auto.
  - destruct (Hget port) as [H | H]; [by left | right; right; by exists port].
  - unfold MultiOutputMixin.subscribe, bind.
    destruct (get_port_total port s) as (p & s1 & Hp).
    specialize (Hget port). rewrite Hp in *. simpl in Hget.
    destruct (Port.get_output p (store s1)) as [q w'] eqn:Hq. simpl.
    destruct Hget as [H | H]; [by left | right; right; by exists port].
  - left. unfold MultiOutputMixin.get_output.
    by destruct (Port.get_output (out_port (layer s)) (store s)).
  - left. apply handle_output_emits.
Qed.

Lemma run_op_auto_get o s name p :
  Dict.get name (auto_ports (layer s)) = Some p ->
  Dict.get name (auto_ports (layer (run_op o s))) = Some p.
Proof.
  intros H.
  destruct (run_op_layer o s) as [-> | [(port & _ & _ & ->) | (port & _ & ->)]];
    simpl; [done | done | by apply dict_get_app_l].
Qed.

Lemma run_op_ports_get o s name p :
  Dict.get name (ports (layer s)) = Some p ->
  Dict.get name (ports (layer (run_op o s))) = Some p.
Proof.
  intros H.
  destruct (run_op_layer o s) as [-> | [(port & _ & _ & ->) | (port & _ & ->)]];
    simpl; [done | by apply dict_get_app_l | done].
Qed.

Lemma run_op_ports_none o s name :
  o <> RegisterPort name false ->
  Dict.get name (ports (layer s)) = None ->
  Dict.get name (ports (layer (run_op o s))) = None.
Proof.
  intros Ho H.
  destruct (run_op_layer o s) as [-> | [(port & -> & _ & ->) | (port & _ & ->)]];
    simpl; [done | | done].
  rewrite dict_get_snoc_ne; [done | congruence].
Qed.

Lemma run_ops_auto_get os name p : forall s,
  Dict.get name (auto_ports (layer s)) = Some p ->
  Dict.get name (auto_ports (layer (run_ops os s))) = Some p.
Proof.
  unfold run_ops. induction os as [|o os IH]; intros s H; simpl; [done |].
  by apply IH, run_op_auto_get.
Qed.

Lemma run_ops_ports_get os name p : forall s,
  Dict.get name (ports (layer s)) = Some p ->
  Dict.get name (ports (layer (run_ops os s))) = Some p.
Proof.
  unfold run_ops. induction os as [|o os IH]; intros s H; simpl; [done |].
  by apply IH, run_op_ports_get.
Qed.

Lemma run_ops_ports_none os name : forall s,
  RegisterPort name false ∉ os ->
  Dict.get name (ports (layer s)) = None ->
  Dict.get name (ports (layer (run_ops os s))) = None.
Proof.
  unfold run_ops. induction os as [|o os IH]; intros s Hno H; simpl; [done |].
  rewrite not_elem_of_cons in Hno. destruct Hno as [Ho Hno].
  apply IH; [done |]. apply run_op_ports_none; [congruence | done].
Qed.

(** *** The invariant of multi-port layers *)

Lemma dict_get_value {V} k (v : V) d : Dict.get k d = Some v -> v ∈ map snd d.
Proof.
  intros H%dict_get_elem. apply list_elem_of_In.
  apply list_elem_of_In in H. by apply (in_map snd) in H.
Qed.

Lemma port_ids_register auto port s :
  port_ids (layer (MultiOutputMixin.set_port_list auto
     (MultiOutputMixin.port_list auto s ++ [(port, next_id (store s))])
     (MState (layer s) (snd (Port.new (store s))))))
  ≡ₚ next_id (store s) :: port_ids (layer s).
Proof.
  unfold port_ids. destruct auto; simpl; rewrite map_app; simpl.
  - rewrite app_assoc.
    symmetry. apply (Permutation_cons_append (out_port (layer s) :: _)).
  - rewrite <- app_assoc. simpl.
    symmetry. apply (Permutation_middle (out_port (layer s) :: _)).
Qed.

Lemma init_ok w : world_ok w -> mstate_ok (MultiOutputMixin.init w).
Proof.
  intros Hok. unfold MultiOutputMixin.init. simpl.
  split; [by apply port_new_ok |]. unfold port_ids. simpl.
  split; [apply NoDup_nil_2 |]. split; [apply NoDup_nil_2 |].
  split; [apply NoDup_singleton |].
  apply Forall_singleton. lia.
Qed.

Lemma register_new_ok auto port s :
  mstate_ok s ->
  Dict.get port (MultiOutputMixin.port_list auto s) = None ->
  mstate_ok (MultiOutputMixin.set_port_list auto
     (MultiOutputMixin.port_list auto s ++ [(port, next_id (store s))])
     (MState (layer s) (snd (Port.new (store s))))).
Proof.
  intros (Hw & Hkp & Hka & Hnd & Hlt) Hfresh.
  assert (Hnew : next_id (store s) ∉ port_ids (layer s)).
  { intros Hin. rewrite Forall_forall in Hlt. apply Hlt in Hin. lia. }
  assert (Hkey : port ∉ Dict.keys (MultiOutputMixin.port_list auto s)).
  { rewrite dict_get_keys, Hfresh. by intros [? ?]. }
  assert (Hkeys : NoDup (Dict.keys
            (MultiOutputMixin.port_list auto s ++ [(port, next_id (store s))]))).
  { unfold Dict.keys in *. rewrite map_app. simpl.
    apply NoDup_app. split; [by destruct auto |].
    split; [| apply NoDup_singleton].
    intros k Hk Hk'. apply list_elem_of_singleton in Hk'. by subst k. }
  split; [| split; [| split; [| split]]].
  - destruct auto; simpl; by apply port_new_ok.
  - destruct auto; simpl; done.
  - destruct auto; simpl; done.
  - rewrite port_ids_register. by apply NoDup_cons.
  - rewrite port_ids_register.
    assert (Hn : next_id (store (MultiOutputMixin.set_port_list auto
       (MultiOutputMixin.port_list auto s ++ [(port, next_id (store s))])
       (MState (layer s) (snd (Port.new (store s))))))
       = S (next_id (store s))) by (by destruct auto).
    rewrite Hn. constructor; [lia |].
    eapply Forall_impl; [apply Hlt | simpl; lia].
Qed.

Lemma register_port_ok port auto s :
  mstate_ok s -> mstate_ok (snd (MultiOutputMixin._register_port port auto s)).
Proof.
  intros Hok.
  destruct (Dict.get port (MultiOutputMixin.port_list auto s)) as [p|] eqn:H.
  - by rewrite (register_port_exists _ _ _ _ H).
  - rewrite (register_port_new _ _ _ H). by apply register_new_ok.
Qed.

Lemma get_port_ok port s p s1 :
  mstate_ok s ->
  MultiOutputMixin.get_port port s = (Ok p, s1) ->
  mstate_ok s1 /\ p ∈ port_ids (layer s1).
Proof.
  intros Hok Hget. unfold port_ids.
  destruct (Dict.get port (ports (layer s))) as [p'|] eqn:H1.
  { rewrite (get_port_declared _ _ _ H1) in Hget. injection Hget as <- <-.
    split; [done |]. rewrite elem_of_cons, elem_of_app.
    right. left. by eapply dict_get_value. }
  destruct (Dict.get port (auto_ports (layer s))) as [p'|] eqn:H2.
  { rewrite (get_port_auto _ _ _ H1 H2) in Hget. injection Hget as <- <-.
    split; [done |]. rewrite elem_of_cons, elem_of_app.
    right. right. by eapply dict_get_value. }
  rewrite (get_port_fresh _ _ H1 H2) in Hget. injection Hget as <- <-.
  split.
  - apply (register_new_ok true port s Hok H2).
  - simpl. rewrite elem_of_cons, elem_of_app, map_app, elem_of_app. simpl.
    right. right. right. by left.
Qed.

Lemma subscribe_store_ok p s :
  mstate_ok s -> p ∈ port_ids (layer s) ->
  mstate_ok (MState (layer s) (snd (Port.get_output p (store s)))).
Proof.
  intros (Hw & Hkp & Hka & Hnd & Hlt) Hp.
  assert (Hb : p < next_id (store s)).
  { rewrite Forall_forall in Hlt. by apply Hlt. }
  split; [by apply get_output_ok |].
  repeat split; try done. simpl.
  eapply Forall_impl; [apply Hlt | simpl; lia].
Qed.

Lemma emits_only_ok s s' : emits_only s s' -> mstate_ok s -> mstate_ok s'.
Proof.
  intros [Hl Hs] (Hw & Hkp & Hka & Hnd & Hlt).
  split; [by eapply same_ports_ok |].
  rewrite Hl, (proj1 Hs). done.
Qed.

Lemma run_op_ok o s : mstate_ok s -> mstate_ok (run_op o s).
Proof.
  intros Hok. destruct o as [port auto | port | port | | data]; cbn [run_op].
  - by apply register_port_ok.
  - destruct (get_port_total port s) as (p & s1 & Hp).
    rewrite Hp. by apply (get_port_ok port s p s1).
  - unfold MultiOutputMixin.subscribe, bind.
    destruct (get_port_total port s) as (p & s1 & Hp). rewrite Hp.
    destruct (get_port_ok port s p s1 Hok Hp) as [Hok1 Hin].
    pose proof (subscribe_store_ok p s1 Hok1 Hin) as H.
    by destruct (Port.get_output p (store s1)).
  - unfold MultiOutputMixin.get_output.
    pose proof (subscribe_store_ok (out_port (layer s)) s Hok) as H.
    destruct (Port.get_output (out_port (layer s)) (store s)).
    apply H. unfold port_ids. by left.
  - eapply emits_only_ok; [apply handle_output_emits | done].
Qed.

Lemma run_ops_ok os : forall s, mstate_ok s -> mstate_ok (run_ops os s).
Proof.
  unfold run_ops. induction os as [|o os IH]; intros s Hok; simpl; [done |].
  by apply IH, run_op_ok.
Qed.

(** C6. Registering with [auto=False] a name that the declared map already
    has raises the "already exists" [NameError] and leaves the whole state as
    it was: the name is still bound to the first [Port] and no object has
    been created. *)
Theorem C6_duplicate_declaration (s : mstate) (port : string) (p : nat) :
  Dict.get port (ports (layer s)) = Some p ->
  MultiOutputMixin._register_port port false s =
    (Raise (NameError ("Port " +:+ port +:+ " already exists")), s)
  /\ Dict.get port (ports (layer (snd
        (MultiOutputMixin._register_port port false s)))) = Some p
  /\ store (snd (MultiOutputMixin._register_port port false s)) = store s.
Proof.
  intros H. rewrite (register_port_exists port false s p H). by simpl.
Qed.

(** C7. Resolving a name that is in neither map returns, without
    raising, a [Port] created by that call and bound to the name at the end
    of the auto-created map, and nothing else changes; after any later calls
    that do not declare that same name, resolving it again returns the same
    [Port] and changes nothing.  Resolution never raises, in any state. *)
Theorem C7_auto_create_once (s : mstate) (name : string) :
  Dict.get name (ports (layer s)) = None ->
  Dict.get name (auto_ports (layer s)) = None ->
  exists s1,
    MultiOutputMixin.get_port name s = (Ok (next_id (store s)), s1)
    /\ layer s1 =
       MultiLayer (out_port (layer s)) (ports (layer s))
         (auto_ports (layer s) ++ [(name, next_id (store s))])
    /\ store s1 = snd (Port.new (store s))
    /\ (forall os, RegisterPort name false ∉ os ->
          MultiOutputMixin.get_port name (run_ops os s1) =
          (Ok (next_id (store s)), run_ops os s1))
    /\ (forall s' port, exists p' s'',
          MultiOutputMixin.get_port port s' = (Ok p', s'')).
Proof.
  intros H1 H2. eexists. split; [by apply get_port_fresh |].
  split; [done |]. split; [done |]. split; [| intros; apply get_port_total].
  intros os Hos. apply get_port_auto.
  - by apply run_ops_ports_none.
  - apply run_ops_auto_get. simpl.
    rewrite <- (dict_set_fresh name (next_id (store s))) by done.
    apply dict_get_set_eq.
Qed.

(** A name resolved, subscribed to, declared, subscribed to again, and then
    dispatched: the first subscriber (queue 2, on the auto-created port 1)
    gets nothing, the second (queue 4, on the declared port 3) gets the value
    twice. *)
Example declared_after_auto_run :
  let s := run_ops [GetPort "x"; Subscribe "x"; RegisterPort "x" false;
                    Subscribe "x"; HandleOutput (VDict [("x", VInt 5)])]
             (MultiOutputMixin.init empty_world) in
  layer s = MultiLayer 0 [("x", 3)] [("x", 1)]
  /\ out_queues (store s) 1 = [2]
  /\ out_queues (store s) 3 = [4]
  /\ contents (store s) 2 = []
  /\ contents (store s) 4 = [VInt 5; VInt 5].
Proof. vm_compute. repeat split; done. Qed.

(** *** Dispatch seen from one queue *)

Lemma flat_map_nil {A B} (f : A -> list B) (xs : list A) :
  (forall x, x ∈ xs -> f x = []) -> flat_map f xs = [].
Proof.
  induction xs as [|x xs IH]; intros H; simpl; [done |].
  rewrite H by (by left). apply IH. intros y Hy. apply H. by right.
Qed.

Lemma received_named w l kvs q p ks :
  world_ok w -> q ∈ out_queues w p ->
  flat_map (fun e => if decide (q ∈ out_queues w (fst e))
                     then emitted (snd e) else [])
           (named_emissions l kvs ks)
  = flat_map (sent_to l kvs p) ks.
Proof.
  intros Hok Hq. assert (Hdisj := proj1 (proj2 Hok)).
  unfold named_emissions, sent_to.
  induction ks as [|key ks IH]; simpl; [done |].
  destruct (resolve l key) as [p'|]; [| done].
  destruct (Dict.get key kvs) as [v|]; [| done]. simpl.
  f_equal; [| exact IH].
  destruct (decide (p' = p)) as [->|Hne].
  - by rewrite decide_True.
  - rewrite decide_False; [done |]. intros Hq'. apply Hne. eauto.
Qed.

Lemma nodup_snd_inj {V} (d : list (string * V)) k1 k2 v :
  NoDup (map snd d) -> (k1, v) ∈ d -> (k2, v) ∈ d -> k1 = k2.
Proof.
  induction d as [|[k0 v0] d IH]; simpl; intros Hnd H1 H2.
  - by apply elem_of_nil in H1.
  - apply NoDup_cons in Hnd as [Hv0 Hnd].
    assert (Hin : forall k, (k, v0) ∈ d -> v0 ∈ map snd d).
    { intros k Hk. apply list_elem_of_In. apply list_elem_of_In in Hk.
      by apply (in_map snd) in Hk. }
    apply elem_of_cons in H1 as [E1 | H1];
      apply elem_of_cons in H2 as [E2 | H2].
    + congruence.
    + exfalso. injection E1 as -> ->. eauto.
    + exfalso. injection E2 as -> ->. eauto.
    + eauto.
Qed.

(** In a well-formed layer a name bound in both maps is the only key the loop
    resolves to its declared port, and no key resolves to its auto-created
    port. *)
Lemma resolve_shadowed s name pa pd key :
  mstate_ok s ->
  Dict.get name (ports (layer s)) = Some pd ->
  Dict.get name (auto_ports (layer s)) = Some pa ->
  (resolve (layer s) key = Some pd -> key = name)
  /\ resolve (layer s) key <> Some pa
  /\ pa <> pd /\ out_port (layer s) <> pd /\ out_port (layer s) <> pa.
Proof.
  intros (_ & _ & _ & Hnd & _) Hd Ha. unfold port_ids in Hnd.
  apply NoDup_cons in Hnd as [Hout Hnd].
  apply NoDup_app in Hnd as (Hndp & Hsep & Hnda).
  rewrite elem_of_app in Hout.
  assert (Hpd := dict_get_value _ _ _ Hd).
  assert (Hpa := dict_get_value _ _ _ Ha).
  unfold resolve.
  split; [| split; [| split; [| split]]].
  - destruct (Dict.get key (ports (layer s))) as [p|] eqn:Hk.
    + intros [= ->].
      eapply nodup_snd_inj; [apply Hndp | by apply dict_get_elem ..].
    + intros Hk'%dict_get_value. exfalso. by eapply Hsep.
  - destruct (Dict.get key (ports (layer s))) as [p|] eqn:Hk.
    + intros [= ->]. apply dict_get_value in Hk. by eapply Hsep.
    + intros Hk'. assert (key = name) as ->.
      { eapply nodup_snd_inj; [apply Hnda | by apply dict_get_elem ..]. }
      congruence.
  - intros E. subst pa. by eapply Hsep.
  - intros E. rewrite E in Hout. tauto.
  - intros E. rewrite E in Hout. tauto.
Qed.

Lemma sent_to_keys_once l kvs p name v (ks : list string) :
  name ∈ ks -> NoDup ks ->
  (forall key, resolve l key = Some p -> key = name) ->
  resolve l name = Some p ->
  Dict.get name kvs = Some v ->
  flat_map (sent_to l kvs p) ks = emitted v.
Proof.
  intros Hin Hnd Honly Hres Hv.
  apply list_elem_of_split in Hin as (k1 & k2 & ->).
  apply NoDup_app in Hnd as (_ & Hsep & Hnd2).
  apply NoDup_cons in Hnd2 as [Hk2 _].
  assert (Hother : forall ks', name ∉ ks' -> flat_map (sent_to l kvs p) ks' = []).
  { intros ks' Hno. apply flat_map_nil. intros key Hkey. unfold sent_to.
    destruct (resolve l key) as [p'|] eqn:Hr; [| done].
    destruct (Dict.get key kvs); [| done].
    rewrite decide_False; [done |]. intros ->. apply Honly in Hr. by subst. }
  rewrite flat_map_app. simpl. rewrite !Hother.
  - unfold sent_to. rewrite Hres, Hv, decide_True by done. by rewrite app_nil_r.
  - done.
  - intros Hk1. by eapply Hsep; [| left].
Qed.

Lemma dispatch_shadowed s name pa pd kvs v :
  mstate_ok s ->
  Dict.get name (ports (layer s)) = Some pd ->
  Dict.get name (auto_ports (layer s)) = Some pa ->
  Dict.get name kvs = Some v ->
  exists s',
    MultiOutputMixin.handle_output (VDict kvs) s = (Ok tt, s')
    /\ (forall q, q ∈ out_queues (store s) pd ->
          contents (store s') q = contents (store s) q ++ emitted v ++ emitted v)
    /\ (forall q, q ∈ out_queues (store s) pa ->
          contents (store s') q = contents (store s) q).
Proof.
  intros Hok Hd Ha Hv.
  eexists. split; [apply handle_output_dict |]. cbn [store].
  assert (Hw := proj1 Hok). assert (Hdisj := proj1 (proj2 Hw)).
  destruct Hok as (_ & Hkp & Hka & Hok').
  assert (Hres : resolve (layer s) name = Some pd) by (unfold resolve; by rewrite Hd).
  assert (Hsh := fun key => resolve_shadowed s name pa pd key
                   (conj Hw (conj Hkp (conj Hka Hok'))) Hd Ha).
  destruct (Hsh name) as (_ & _ & Hne & Hop & Hoa).
  split; intros q Hq; rewrite emit_all_contents by done;
    rewrite flat_map_app, (received_named _ _ _ _ _ _ Hw Hq), flat_map_app;
    simpl.
  - rewrite (sent_to_keys_once _ _ pd name v (Dict.keys (ports (layer s)))),
            (sent_to_keys_once _ _ pd name v (Dict.keys (auto_ports (layer s))));
      try done; try (intros key; apply Hsh);
      try (apply dict_get_keys; by eexists).
    rewrite decide_False; [by rewrite !app_nil_r |].
    intros Hq'. apply Hop. eauto.
  - rewrite !flat_map_nil.
    + rewrite decide_False; [by rewrite !app_nil_r |].
      intros Hq'. apply Hoa. eauto.
    + intros key _. unfold sent_to.
      destruct (resolve (layer s) key) as [p'|] eqn:Hr; [| done].
      destruct (Dict.get key kvs); [| done].
      rewrite decide_False; [done |]. intros ->.
      by destruct (Hsh key) as (_ & Hno & _).
    + intros key _. unfold sent_to.
      destruct (resolve (layer s) key) as [p'|] eqn:Hr; [| done].
      destruct (Dict.get key kvs); [| done].
      rewrite decide_False; [done |]. intros ->.
      by destruct (Hsh key) as (_ & Hno & _).
Qed.

Lemma subscribers_kept_refl w : subscribers_kept w w.
Proof. split; [lia | done]. Qed.

Lemma subscribers_kept_trans w1 w2 w3 :
  subscribers_kept w1 w2 -> subscribers_kept w2 w3 -> subscribers_kept w1 w3.
Proof.
  intros [Hn1 H1] [Hn2 H2]. split; [lia |].
  intros p q Hp Hq. apply H2; [lia |]. by apply H1.
Qed.

Lemma subscribers_kept_same_ports w w' :
  same_ports w w' -> subscribers_kept w w'.
Proof.
  intros Hs. split; [rewrite (proj1 Hs); lia |].
  intros p q _. by rewrite (same_ports_out_queues _ _ _ Hs).
Qed.

Lemma subscribers_kept_port_new w : subscribers_kept w (snd (Port.new w)).
Proof.
  split; [simpl; lia |]. intros p q Hp. unfold out_queues. simpl.
  rewrite lookup_insert_ne by lia. done.
Qed.

Lemma subscribers_kept_get_output p' w :
  subscribers_kept w (snd (Port.get_output p' w)).
Proof.
  split; [simpl; lia |]. intros p q _ Hq. rewrite out_queues_get_output.
  case_decide; [subst; rewrite elem_of_app; by left | done].
Qed.

Lemma get_port_kept port s :
  subscribers_kept (store s) (store (snd (MultiOutputMixin.get_port port s))).
Proof.
  destruct (Dict.get port (ports (layer s))) as [p|] eqn:H1.
  { rewrite (get_port_declared _ _ _ H1). apply subscribers_kept_refl. }
  destruct (Dict.get port (auto_ports (layer s))) as [p|] eqn:H2.
  { rewrite (get_port_auto _ _ _ H1 H2). apply subscribers_kept_refl. }
  rewrite (get_port_fresh _ _ H1 H2). apply subscribers_kept_port_new.
Qed.

(** No call takes a subscriber away from a created port. *)
Lemma run_op_kept o s : subscribers_kept (store s) (store (run_op o s)).
Proof.
  destruct o as [port auto | port | port | | data]; cbn [run_op].
  - destruct (Dict.get port (MultiOutputMixin.port_list auto s)) as [p|] eqn:H.
    + rewrite (register_port_exists _ _ _ _ H). apply subscribers_kept_refl.
    + rewrite (register_port_new _ _ _ H).
      destruct auto; apply subscribers_kept_port_new.
  - apply get_port_kept.
  - pose proof (get_port_kept port s) as Hk.
    unfold MultiOutputMixin.subscribe, bind.
    destruct (get_port_total port s) as (p & s1 & Hp). rewrite Hp in *.
    pose proof (subscribers_kept_get_output p (store s1)) as Hg.
    destruct (Port.get_output p (store s1)) as [q w'].
    eapply subscribers_kept_trans; [exact Hk | exact Hg].
  - unfold MultiOutputMixin.get_output.
    pose proof (subscribers_kept_get_output (out_port (layer s)) (store s)) as Hg.
    by destruct (Port.get_output (out_port (layer s)) (store s)).
  - apply subscribers_kept_same_ports, handle_output_emits.
Qed.

Lemma run_ops_kept os : forall s,
  subscribers_kept (store s) (store (run_ops os s)).
Proof.
  unfold run_ops. induction os as [|o os IH]; intros s; simpl.
  - apply subscribers_kept_refl.
  - eapply subscribers_kept_trans; [apply run_op_kept | apply IH].
Qed.

(** C10. On a well-formed layer, resolving a name that is in neither map
    auto-creates its port; after any calls that do not declare the name
    (subscriptions to the auto-created port among them), declaring the name
    succeeds, so that the name is bound in both maps, to two different ports.
    After any further calls both bindings are still there, the auto-created
    port still has every subscriber it had when the name was declared, and
    dispatching a dictionary that has the name as a key returns normally,
    emits the value twice on the declared port (each of its subscribers gets
    what two emissions leave) and leaves the queues of the auto-created
    port's subscribers as they were. *)
Theorem C10_declared_after_auto (s : mstate) (name : string)
    (between : list op) :
  mstate_ok s ->
  Dict.get name (ports (layer s)) = None ->
  Dict.get name (auto_ports (layer s)) = None ->
  RegisterPort name false ∉ between ->
  exists pa pd s1 s2,
    MultiOutputMixin.get_port name s = (Ok pa, s1)
    /\ MultiOutputMixin._register_port name false (run_ops between s1)
       = (Ok tt, s2)
    /\ pa <> pd
    /\ forall os,
         Dict.get name (ports (layer (run_ops os s2))) = Some pd
         /\ Dict.get name (auto_ports (layer (run_ops os s2))) = Some pa
         /\ (forall q, q ∈ out_queues (store (run_ops between s1)) pa ->
               q ∈ out_queues (store (run_ops os s2)) pa)
         /\ forall kvs v, Dict.get name kvs = Some v ->
              exists s4,
                MultiOutputMixin.handle_output (VDict kvs) (run_ops os s2)
                  = (Ok tt, s4)
                /\ (forall q, q ∈ out_queues (store (run_ops os s2)) pd ->
                      contents (store s4) q =
                      contents (store (run_ops os s2)) q
                      ++ emitted v ++ emitted v)
                /\ (forall q, q ∈ out_queues (store (run_ops os s2)) pa ->
                      contents (store s4) q =
                      contents (store (run_ops os s2)) q).
Proof.
  intros Hok H1 H2 Hno.
  pose proof (get_port_fresh name s H1 H2) as Hget.
  destruct (get_port_ok _ _ _ _ Hok Hget) as [Hok1 _].
  set (s1 := MState _ _) in Hget, Hok1.
  set (sb := run_ops between s1).
  assert (Hokb : mstate_ok sb) by (by apply run_ops_ok).
  assert (Hab : Dict.get name (auto_ports (layer sb)) = Some (next_id (store s))).
  { apply run_ops_auto_get. simpl.
    rewrite <- (dict_set_fresh name (next_id (store s))) by done.
    apply dict_get_set_eq. }
  assert (H1' : Dict.get name (MultiOutputMixin.port_list false sb) = None).
  { by apply run_ops_ports_none. }
  assert (Hlt : next_id (store s) < next_id (store sb)).
  { destruct Hokb as (_ & _ & _ & _ & Hall). rewrite Forall_forall in Hall.
    apply Hall. unfold port_ids. rewrite elem_of_cons, elem_of_app.
    right. right. by eapply dict_get_value. }
  pose proof (register_port_new name false sb H1') as Hreg.
  pose proof (register_new_ok false name sb Hokb H1') as Hok2.
  set (s2 := MultiOutputMixin.set_port_list _ _ _) in Hreg, Hok2.
  assert (Hd : Dict.get name (ports (layer s2)) = Some (next_id (store sb))).
  { simpl. simpl in H1'.
    rewrite <- (dict_set_fresh name (next_id (store sb))) by done.
    apply dict_get_set_eq. }
  assert (Ha : Dict.get name (auto_ports (layer s2)) = Some (next_id (store s)))
    by done.
  exists (next_id (store s)), (next_id (store sb)), s1, s2.
  split; [done |]. split; [done |]. split; [lia |].
  intros os.
  split; [by apply run_ops_ports_get |]. split; [by apply run_ops_auto_get |].
  split.
  - intros q Hq.
    destruct (run_ops_kept os s2) as [_ Hkept]. apply Hkept.
    + simpl. lia.
    + destruct (subscribers_kept_port_new (store sb)) as [_ Hnew].
      by apply Hnew.
  - intros kvs v Hv.
    apply (dispatch_shadowed (run_ops os s2) name).
    + by apply run_ops_ok.
    + by apply run_ops_ports_get.
    + by apply run_ops_auto_get.
    + done.
Qed.

(** ** The main loop *)

Section LoopFacts.
Import BaseLayer.
Context {U : Type}.
Variable post_init : fields U -> value -> U.
Variable transform : fields U -> value -> value * U.
Variable handle_signal : fields U -> value -> U.

Lemma handled_signals_app tr tr' :
  handled_signals (tr ++ tr') = handled_signals tr ++ handled_signals tr'.
Proof. apply omap_app. Qed.

Lemma post_init_calls_app tr tr' :
  post_init_calls (tr ++ tr') = post_init_calls tr ++ post_init_calls tr'.
Proof. apply omap_app. Qed.

Lemma fetched_app tr tr' : fetched (tr ++ tr') = fetched tr ++ fetched tr'.
Proof. apply omap_app. Qed.

Lemma projections_of_signals msgs :
  handled_signals (map EvHandleSignal msgs) = msgs
  /\ post_init_calls (map EvHandleSignal msgs) = []
  /\ fetched (map EvHandleSignal msgs) = [].
Proof.
  induction msgs as [|x msgs (IH1 & IH2 & IH3)]; [done |].
  repeat split; [| done | done].
  change (handled_signals (map EvHandleSignal (x :: msgs)))
    with (x :: handled_signals (map EvHandleSignal msgs)).
  by rewrite IH1.
Qed.

(** The [while] loop of the drain, on a queue that holds [msgs]. *)
Lemma drain_spec q msgs : forall fuel (s : lstate U),
  contents (store s) q = msgs ->
  length msgs < fuel ->
  exists s',
    drain handle_signal fuel q s = Done s'
    /\ contents (store s') q = []
    /\ trace s' = trace s ++ map EvHandleSignal msgs
    /\ signal (self s') = default (signal (self s)) (last msgs)
    /\ is_first (self s') = is_first (self s)
    /\ signal_in (self s') = signal_in (self s)
    /\ out_port (self s') = out_port (self s)
    /\ same_ports (store s) (store s').
Proof.
  induction msgs as [|x msgs IH]; intros fuel s Hc Hf.
  - destruct fuel as [|fuel]; [simpl in Hf; lia |].
    exists s. simpl. unfold Queue.empty. rewrite Hc.
    rewrite app_nil_r. by repeat split.
  - destruct fuel as [|fuel]; [simpl in Hf; lia |].
    simpl. unfold Queue.empty, Queue.get. rewrite Hc.
    set (s1 := call_handle_signal handle_signal x _).
    destruct (IH fuel s1) as (s' & Hd & He & Ht & Hs & Hf' & Hi & Ho & Hp).
    { unfold contents. simpl. by rewrite lookup_insert_eq. }
    { simpl in Hf. lia. }
    exists s'. split; [done |]. split; [done |].
    split; [rewrite Ht; simpl; by rewrite <- app_assoc |].
    split.
    { rewrite Hs, last_cons. unfold s1. by destruct (last msgs). }
    unfold s1 in *. simpl in *.
    repeat split; try done; apply Hp.
Qed.

Lemma pending_deliver msgs (s : lstate U) q :
  signal_in (self s) = Some q ->
  pending (deliver msgs s) = contents (store s) q ++ msgs.
Proof.
  intros Hq. unfold pending, deliver. rewrite Hq. simpl. rewrite Hq.
  generalize (store s). induction msgs as [|x msgs IH]; intros w; simpl.
  - by rewrite app_nil_r.
  - rewrite IH, contents_put, decide_True by done. by rewrite <- app_assoc.
Qed.

Lemma pending_no_input msgs (s : lstate U) :
  signal_in (self s) = None -> pending (deliver msgs s) = [].
Proof. intros Hq. unfold pending, deliver. by rewrite Hq, Hq. Qed.

(** [get_signal] with fuel for the pending messages: it returns, having
    handled each of them in order. *)
Lemma get_signal_spec fuel (s : lstate U) :
  length (pending s) < fuel ->
  exists s',
    get_signal handle_signal fuel s = Done s'
    /\ pending s' = []
    /\ trace s' = trace s ++ map EvHandleSignal (pending s)
    /\ signal (self s') = default VNone (last (pending s))
    /\ is_first (self s') = is_first (self s)
    /\ signal_in (self s') = signal_in (self s)
    /\ out_port (self s') = out_port (self s)
    /\ same_ports (store s) (store s').
Proof.
  intros Hf. unfold get_signal, pending in *. simpl.
  destruct (signal_in (self s)) as [q|] eqn:Hq.
  - destruct (drain_spec q (contents (store s) q) fuel (set_signal VNone s))
      as (s' & Hd & He & Ht & Hs & Hf' & Hi & Ho & Hp); [done | done |].
    exists s'. simpl in *. rewrite Hi, Hq.
    do 7 (split; [done |]). exact Hp.
  - exists (set_signal VNone s). simpl. rewrite Hq, app_nil_r.
    do 7 (split; [done |]). apply same_ports_refl.
Qed.
Lemma deliver_fields msgs (s : lstate U) :
  self (deliver msgs s) = self s /\ trace (deliver msgs s) = trace s.
Proof. unfold deliver. by destruct (signal_in (self s)). Qed.

(** One iteration of the loop always completes; what it does to the
    fields and to the trace. *)
Lemma iteration_spec t (s : lstate U) :
  exists s',
    iteration post_init transform handle_signal t s = Done s'
    /\ signal_in (self s') = signal_in (self s)
    /\ is_first (self s') = is_first (self s) && is_none (input t)
    /\ post_init_calls (trace s') =
       post_init_calls (trace s)
       ++ (if is_first (self s) && negb (is_none (input t))
           then [input t] else [])
    /\ fetched (trace s') = fetched (trace s) ++ [input t]
    /\ (is_none (input t) = false ->
          signal (self s') =
            default VNone (last (pending (deliver (signals_sent t) s)))
          /\ handled_signals (trace s') =
             handled_signals (trace s) ++ pending (deliver (signals_sent t) s))
    /\ (is_none (input t) = true ->
          signal (self s') = signal (self s)
          /\ handled_signals (trace s') = handled_signals (trace s)).
Proof.
  unfold iteration.
  destruct (deliver_fields (signals_sent t) s) as [Hself Htrace].
  set (s0 := log (EvGetInput (input t)) (deliver (signals_sent t) s)).
  assert (Hs0 : self s0 = self s) by done.
  assert (Ht0 : trace s0 = trace s ++ [EvGetInput (input t)])
    by (unfold s0; simpl; by rewrite Htrace).
  assert (Hp0 : pending s0 = pending (deliver (signals_sent t) s)) by done.
  destruct (is_none (input t)) eqn:Hin.
  - exists s0. rewrite Hs0, Ht0, post_init_calls_app, fetched_app,
      handled_signals_app, !andb_false_r, andb_true_r. simpl.
    rewrite !app_nil_r. repeat split; done.
  - destruct (get_signal_spec (S (length (pending s0))) s0)
      as (s1 & Hg & _ & Ht1 & Hsig & Hf1 & Hi1 & _ & _); [lia |].
    rewrite Hg. clear Hg. rewrite Hs0 in *. rewrite Hp0 in *.
    rewrite Ht0 in Ht1.
    destruct (projections_of_signals (pending (deliver (signals_sent t) s)))
      as (Pa & Pb & Pc).
    destruct s1 as [[sig1 first1 sin1 out1 u1] w1 tr1]. simpl in *.
    subst tr1 sig1 first1 sin1.
    unfold call_transform, call_post_init, call_handle_output,
      set_is_first, set_user, set_store, log. simpl.
    destruct (is_first (self s)); simpl;
      match goal with
      | |- context [transform ?f ?d] =>
          destruct (transform f d) as [r u]
      end; simpl;
      destruct (is_none r); simpl;
      eexists; (split; [reflexivity |]); simpl;
      rewrite ?post_init_calls_app, ?fetched_app, ?handled_signals_app,
        ?Pa, ?Pb, ?Pc; simpl; rewrite ?app_nil_r;
      repeat split; try done.
Qed.
Lemma process_loop_app script rest (s0 s1 : lstate U) :
  process_loop post_init transform handle_signal script s0 = Running s1 ->
  process_loop post_init transform handle_signal (script ++ rest) s0 =
  process_loop post_init transform handle_signal rest s1.
Proof.
  revert s0. induction script as [|t script IH]; intros s0 Hrun; simpl in *.
  - by injection Hrun as ->.
  - destruct (stop_is_set t); [done |].
    destruct (iteration_spec t s0) as (s' & Hit & _).
    rewrite Hit in *. by apply IH.
Qed.

(** While no tick finds the stop event set, the loop keeps running and
    makes one fetch per tick. *)
Lemma process_loop_running pre : forall s0 : lstate U,
  Forall (fun x => stop_is_set x = false) pre ->
  exists s,
    process_loop post_init transform handle_signal pre s0 = Running s
    /\ fetched (trace s) = fetched (trace s0) ++ map input pre.
Proof.
  induction pre as [|t pre IH]; intros s0 Hall; simpl.
  - exists s0. by rewrite app_nil_r.
  - apply Forall_cons in Hall as [Ht Hall]. rewrite Ht.
    destruct (iteration_spec t s0) as (s' & Hit & _ & _ & _ & Hf & _).
    rewrite Hit. destruct (IH s' Hall) as (s & Hrun & Hfs).
    exists s. split; [done |]. rewrite Hfs, Hf. by rewrite <- app_assoc.
Qed.

Lemma process_loop_post_init script : forall s0 : lstate U,
  exists s,
    state_of (process_loop post_init transform handle_signal script s0)
      = Some s
    /\ post_init_calls (trace s) =
       post_init_calls (trace s0)
       ++ (if is_first (self s0)
           then option_list (head (non_marker (map input (executed script))))
           else []).
Proof.
  induction script as [|t script IH]; intros s0; simpl.
  - exists s0. split; [done |]. destruct (is_first (self s0)); by rewrite app_nil_r.
  - destruct (stop_is_set t).
    + exists s0. split; [done |].
      destruct (is_first (self s0)); by rewrite app_nil_r.
    + destruct (iteration_spec t s0) as (s' & Hit & _ & Hfirst & Hpic & _).
      rewrite Hit. destruct (IH s') as (s & Hst & Hs).
      exists s. split; [done |]. rewrite Hs, Hpic, Hfirst, <- app_assoc.
      f_equal. unfold non_marker. simpl. rewrite filter_cons.
      destruct (is_first (self s0)), (is_none (input t)) eqn:Hn; simpl;
        try done; case_decide; done.
Qed.

(** C3. On a layer with a control input that holds K messages, a drain with
    fuel for them returns (it neither blocks nor runs out of fuel), leaves
    the queue empty, has called [handle_signal] on each of the K messages
    in enqueue order and on nothing else, and leaves [signal] at the last
    of them ([None] when K is 0). *)
Theorem C3_drain_all (fuel : nat) (s : lstate U) (q : nat) :
  signal_in (self s) = Some q ->
  length (contents (store s) q) < fuel ->
  exists s',
    get_signal handle_signal fuel s = Done s'
    /\ contents (store s') q = []
    /\ trace s' = trace s ++ map EvHandleSignal (contents (store s) q)
    /\ signal (self s') = default VNone (last (contents (store s) q))
    /\ (forall x, last (contents (store s) q) = Some x ->
          signal (self s') = x).
Proof.
  intros Hq Hf.
  destruct (get_signal_spec fuel s) as (s' & Hg & He & Ht & Hs & _ & Hi & _).
  { unfold pending. by rewrite Hq. }
  unfold pending in *. rewrite Hi, Hq in He. rewrite Hq in Ht, Hs.
  exists s'. repeat split; try done.
  intros x Hx. by rewrite Hs, Hx.
Qed.

(** C4, amended. After an iteration that drains the control input, [signal]
    is the last message that iteration's drain dequeued, and [None] when the
    drain found the queue empty: the value stored by an earlier iteration
    does not persist. *)
Theorem C4_signal_is_per_drain (script : list tick) (t : tick)
    (s0 s1 : lstate U) (q : nat) :
  process_loop post_init transform handle_signal script s0 = Running s1 ->
  signal_in (self s1) = Some q ->
  stop_is_set t = false ->
  is_none (input t) = false ->
  exists s2,
    process_loop post_init transform handle_signal (script ++ [t]) s0
      = Running s2
    /\ signal (self s2) =
       default VNone (last (contents (store s1) q ++ signals_sent t))
    /\ handled_signals (trace s2) =
       handled_signals (trace s1) ++ contents (store s1) q ++ signals_sent t
    /\ (contents (store s1) q ++ signals_sent t = [] ->
        signal (self s2) = VNone).
Proof.
  intros Hrun Hq Hstop Hin.
  rewrite (process_loop_app _ [t] _ _ Hrun). simpl. rewrite Hstop.
  destruct (iteration_spec t s1) as (s2 & Hit & _ & _ & _ & _ & Hsig & _).
  rewrite Hit. destruct (Hsig Hin) as [Hs Hh].
  rewrite (pending_deliver _ _ _ Hq) in Hs, Hh.
  exists s2. repeat split; try done.
  intros He. by rewrite Hs, He.
Qed.

(** C5. Over any run of a new layer, the calls of [post_init] made so far
    are: none while every fetched item was [None], and from the first
    iteration that fetches an item other than [None] on, exactly one call,
    with that item; no iteration hangs. *)
Theorem C5_post_init_once (script : list tick) (s0 : lstate U) :
  is_first (self s0) = true ->
  post_init_calls (trace s0) = [] ->
  exists s,
    state_of (process_loop post_init transform handle_signal script s0)
      = Some s
    /\ post_init_calls (trace s) =
       option_list (head (non_marker (map input (executed script)))).
Proof.
  intros Hfirst Hnone.
  destruct (process_loop_post_init script s0) as (s & Hst & Hs).
  exists s. split; [done |]. by rewrite Hs, Hnone, Hfirst.
Qed.

(** C8. When the stop event is found set at the top of the loop, after
    iterations that found it clear, the loop exits in the state those
    iterations left: it has made one fetch per iteration begun and none
    after, whatever the script says next. *)
Theorem C8_stop_at_loop_top (pre post : list tick) (t : tick)
    (s0 : lstate U) :
  Forall (fun x => stop_is_set x = false) pre ->
  stop_is_set t = true ->
  exists s,
    process_loop post_init transform handle_signal pre s0 = Running s
    /\ process_loop post_init transform handle_signal (pre ++ t :: post) s0
       = Exited s
    /\ fetched (trace s) = fetched (trace s0) ++ map input pre.
Proof.
  intros Hpre Ht.
  destruct (process_loop_running pre s0 Hpre) as (s & Hrun & Hf).
  exists s. split; [done |]. split; [| done].
  rewrite (process_loop_app _ (t :: post) _ _ Hrun). simpl. by rewrite Ht.
Qed.
End LoopFacts.

(** C4 as stated fails: the first iteration drains "x" and stores it; the
    second iteration drains an empty queue, and afterwards [signal] is [None]
    although the most recent message dequeued in the run is still "x". *)
Lemma C4_empty_drain_resets_signal :
  match Plain.process_loop
          [Tick false (VInt 1) [VStr "x"]; Tick false (VInt 2) []]
          Plain.start with
  | BaseLayer.Running s2 =>
      BaseLayer.signal (BaseLayer.self Plain.after_first) = VStr "x"
      /\ last (BaseLayer.handled_signals (BaseLayer.trace s2)) = Some (VStr "x")
      /\ BaseLayer.signal (BaseLayer.self s2) = VNone
      /\ BaseLayer.signal (BaseLayer.self s2) <> VStr "x"
  | _ => False
  end.
Proof. vm_compute. repeat split; done. Qed.

(** ** The theorems at concrete states *)

Lemma ab_state_ok : mstate_ok ab_state.
Proof. apply run_ops_ok, init_ok, empty_world_ok. Qed.

(** C1 on a port with two subscribers. *)
Lemma C1_fan_out_witness :
  (forall q, q ∈ out_queues two_subscribers 0 ->
     contents (Port.handle_outputs 0 [VInt 1; VNone; VInt 2] two_subscribers) q
     = contents two_subscribers q ++ non_marker [VInt 1; VNone; VInt 2])
  /\ Port.handle_output 0 VNone two_subscribers = two_subscribers.
Proof.
  apply (C1_fan_out two_subscribers 0 [VInt 1; VNone; VInt 2]).
  apply (bool_decide_unpack _). vm_compute. exact I.
Defined.

(** C9 on a port with two subscribers: two values emitted, then a third
    subscriber, then three more emissions. *)
Lemma C9_no_replay_witness :
  let w1 := Port.handle_outputs 0 [VInt 1; VInt 2] two_subscribers in
  let q := fst (Port.get_output 0 w1) in
  let w2 := snd (Port.get_output 0 w1) in
  (q ∉ out_queues w1 0)
  /\ (q ∈ out_queues w2 0)
  /\ contents w2 q = []
  /\ contents (Port.handle_outputs 0 [VInt 3; VNone; VInt 4] w2) q
     = non_marker [VInt 3; VNone; VInt 4]
  /\ (Forall (fun v => is_none v = false) [VInt 3; VNone; VInt 4] ->
      contents (Port.handle_outputs 0 [VInt 3; VNone; VInt 4] w2) q
      = [VInt 3; VNone; VInt 4]).
Proof.
  apply (C9_no_replay two_subscribers 0 [VInt 1; VInt 2]
           [VInt 3; VNone; VInt 4]).
  split; apply (bool_decide_unpack _); vm_compute; exact I.
Defined.

(** C2 (amended) on the layer of the dispatch example. *)
Lemma C2_dispatch_declared_only_witness :
  exists s',
    MultiOutputMixin.handle_output ac_value ab_state = (Ok tt, s')
    /\ layer s' = layer ab_state
    /\ resolve (layer s') "c" = None
    /\ same_ports (store ab_state) (store s')
    /\ (forall q, q ∈ out_queues (store ab_state) 1 ->
          contents (store s') q = contents (store ab_state) q ++ [VInt 1])
    /\ (forall q, q ∈ out_queues (store ab_state) 2 ->
          contents (store s') q = contents (store ab_state) q)
    /\ (forall q, q ∈ out_queues (store ab_state) (out_port (layer ab_state)) ->
          contents (store s') q = contents (store ab_state) q ++ [ac_value])
    /\ (forall q, q ∉ out_queues (store ab_state) 1 ->
          q ∉ out_queues (store ab_state) (out_port (layer ab_state)) ->
          contents (store s') q = contents (store ab_state) q).
Proof.
  apply (C2_dispatch_declared_only ab_state 1 2).
  - apply ab_state_ok.
  - reflexivity.
  - reflexivity.
  - apply (bool_decide_unpack _). vm_compute. exact I.
Defined.

(** C6 on the layer of the dispatch example: "a" declared again. *)
Lemma C6_duplicate_declaration_witness :
  MultiOutputMixin._register_port "a" false ab_state =
    (Raise (NameError ("Port " +:+ "a" +:+ " already exists")), ab_state)
  /\ Dict.get "a" (ports (layer (snd
        (MultiOutputMixin._register_port "a" false ab_state)))) = Some 1
  /\ store (snd (MultiOutputMixin._register_port "a" false ab_state))
     = store ab_state.
Proof. apply (C6_duplicate_declaration ab_state "a" 1). reflexivity. Defined.

(** C7 on the layer of the dispatch example, for the name "c". *)
Lemma C7_auto_create_once_witness :
  exists s1,
    MultiOutputMixin.get_port "c" ab_state = (Ok (next_id (store ab_state)), s1)
    /\ layer s1 =
       MultiLayer (out_port (layer ab_state)) (ports (layer ab_state))
         (auto_ports (layer ab_state) ++ [("c", next_id (store ab_state))])
    /\ store s1 = snd (Port.new (store ab_state))
    /\ (forall os, RegisterPort "c" false ∉ os ->
          MultiOutputMixin.get_port "c" (run_ops os s1) =
          (Ok (next_id (store ab_state)), run_ops os s1))
    /\ (forall s' port, exists p' s'',
          MultiOutputMixin.get_port port s' = (Ok p', s'')).
Proof. apply (C7_auto_create_once ab_state "c"); reflexivity. Defined.

(** C10 on the layer of the dispatch example, for the name "c": a subscriber
    (queue 7) is taken on the auto-created port (port 6) before the name is
    declared. *)
Lemma C10_declared_after_auto_witness :
  (7 ∈ out_queues (store (run_ops [Subscribe "c"] c_resolved)) 6)
  /\ exists pa pd s1 s2,
       MultiOutputMixin.get_port "c" ab_state = (Ok pa, s1)
       /\ MultiOutputMixin._register_port "c" false
            (run_ops [Subscribe "c"] s1) = (Ok tt, s2)
       /\ pa <> pd
       /\ forall os,
            Dict.get "c" (ports (layer (run_ops os s2))) = Some pd
            /\ Dict.get "c" (auto_ports (layer (run_ops os s2))) = Some pa
            /\ (forall q,
                  q ∈ out_queues (store (run_ops [Subscribe "c"] s1)) pa ->
                  q ∈ out_queues (store (run_ops os s2)) pa)
            /\ forall kvs v, Dict.get "c" kvs = Some v ->
                 exists s4,
                   MultiOutputMixin.handle_output (VDict kvs) (run_ops os s2)
                     = (Ok tt, s4)
                   /\ (forall q, q ∈ out_queues (store (run_ops os s2)) pd ->
                         contents (store s4) q =
                         contents (store (run_ops os s2)) q
                         ++ emitted v ++ emitted v)
                   /\ (forall q, q ∈ out_queues (store (run_ops os s2)) pa ->
                         contents (store s4) q =
                         contents (store (run_ops os s2)) q).
Proof.
  split.
  - apply (bool_decide_unpack _). vm_compute. exact I.
  - apply (C10_declared_after_auto ab_state "c" [Subscribe "c"]).
    + apply ab_state_ok.
    + reflexivity.
    + reflexivity.
    + rewrite list_elem_of_singleton. discriminate.
Defined.

(** C3 on [BaseLayer] with two messages queued. *)
Lemma C3_drain_all_witness :
  exists s',
    Plain.get_signal 3 Plain.queued = Done s'
    /\ contents (BaseLayer.store s') 0 = []
    /\ BaseLayer.trace s' =
       BaseLayer.trace Plain.queued
       ++ map EvHandleSignal (contents (BaseLayer.store Plain.queued) 0)
    /\ BaseLayer.signal (BaseLayer.self s') =
       default VNone (last (contents (BaseLayer.store Plain.queued) 0))
    /\ (forall x, last (contents (BaseLayer.store Plain.queued) 0) = Some x ->
          BaseLayer.signal (BaseLayer.self s') = x).
Proof.
  apply (C3_drain_all Plain.handle_signal 3 Plain.queued 0).
  - reflexivity.
  - vm_compute. lia.
Defined.

(** C4 (amended) on [BaseLayer]: a second iteration with nothing queued. *)
Lemma C4_signal_is_per_drain_witness :
  exists s2,
    Plain.process_loop
      ([Tick false (VInt 1) [VStr "x"]] ++ [Tick false (VInt 2) []]) Plain.start
      = BaseLayer.Running s2
    /\ BaseLayer.signal (BaseLayer.self s2) =
       default VNone
         (last (contents (BaseLayer.store Plain.after_first) 0
                ++ signals_sent (Tick false (VInt 2) [])))
    /\ BaseLayer.handled_signals (BaseLayer.trace s2) =
       BaseLayer.handled_signals (BaseLayer.trace Plain.after_first)
       ++ contents (BaseLayer.store Plain.after_first) 0
       ++ signals_sent (Tick false (VInt 2) [])
    /\ (contents (BaseLayer.store Plain.after_first) 0
        ++ signals_sent (Tick false (VInt 2) []) = [] ->
        BaseLayer.signal (BaseLayer.self s2) = VNone).
Proof.
  apply (C4_signal_is_per_drain Plain.post_init Plain.transform
           Plain.handle_signal [Tick false (VInt 1) [VStr "x"]]
           (Tick false (VInt 2) []) Plain.start Plain.after_first 0);
    reflexivity.
Defined.

(** C5 on [BaseLayer]: [None] is fetched first, then 1, then 2. *)
Lemma C5_post_init_once_witness :
  exists s,
    state_of (Plain.process_loop
                [Tick false VNone []; Tick false (VInt 1) [];
                 Tick false (VInt 2) []] Plain.start) = Some s
    /\ BaseLayer.post_init_calls (BaseLayer.trace s) =
       option_list (head (non_marker (map input (executed
         [Tick false VNone []; Tick false (VInt 1) [];
          Tick false (VInt 2) []])))).
Proof.
  apply (C5_post_init_once Plain.post_init Plain.transform Plain.handle_signal
           [Tick false VNone []; Tick false (VInt 1) []; Tick false (VInt 2) []]
           Plain.start); reflexivity.
Defined.

(** C8 on [BaseLayer]: the stop event is set during the first iteration. *)
Lemma C8_stop_at_loop_top_witness :
  exists s,
    Plain.process_loop [Tick false (VInt 1) []] Plain.start
      = BaseLayer.Running s
    /\ Plain.process_loop
         ([Tick false (VInt 1) []]
          ++ Tick true (VInt 2) [] :: [Tick false (VInt 3) []]) Plain.start
       = BaseLayer.Exited s
    /\ BaseLayer.fetched (BaseLayer.trace s) =
       BaseLayer.fetched (BaseLayer.trace Plain.start)
       ++ map input [Tick false (VInt 1) []].
Proof.
  apply (C8_stop_at_loop_top Plain.post_init Plain.transform
           Plain.handle_signal [Tick false (VInt 1) []]
           [Tick false (VInt 3) []] (Tick true (VInt 2) []) Plain.start).
  - repeat constructor.
  - reflexivity.
Defined.

(** * Further properties of the code *)

(** ** Ports and queues *)

Lemma put_all_contents_count v qs : forall w q',
  contents (foldl (fun w' q => Queue.put q v w') w qs) q' =
  contents w q' ++ replicate (length (filter (fun q => q = q') qs)) v.
Proof.
  induction qs as [|q qs IH]; intros w q'.
  - simpl. by rewrite app_nil_r.
  - cbn [foldl]. rewrite IH, contents_put, filter_cons.
    destruct (decide (q = q')) as [->|Hne]; [| done].
    by rewrite <- app_assoc.
Qed.

Lemma filter_eq_absent (q : nat) (qs : list nat) :
  q ∉ qs -> filter (fun q0 => q0 = q) qs = [].
Proof.
  induction qs as [|x qs IH]; intros Hq; [done |].
  rewrite not_elem_of_cons in Hq. destruct Hq as [Hx Hq].
  rewrite filter_cons, decide_False by congruence. by apply IH.
Qed.

Lemma handle_output_unsubscribed p v w q :
  q ∉ out_queues w p -> contents (Port.handle_output p v w) q = contents w q.
Proof.
  intros Hq. unfold Port.handle_output. destruct (is_none v); [done |].
  rewrite put_all_contents_count.
  rewrite filter_eq_absent by done. by rewrite app_nil_r.
Qed.

Lemma two_subscribers_ok : world_ok two_subscribers.
Proof.
  unfold two_subscribers.
  apply get_output_ok; [apply get_output_ok; [apply port_new_ok, empty_world_ok |] |];
    vm_compute; lia.
Qed.

(** The store invariant is kept by every operation of [Port]: subscribers of
    a port stay distinct, created queues, and no queue is ever subscribed to
    two ports. *)
Theorem port_operations_keep_world_ok (w : world) :
  world_ok w ->
  world_ok (snd (Port.new w))
  /\ (forall p, p < next_id w -> world_ok (snd (Port.get_output p w)))
  /\ (forall p vs, world_ok (Port.handle_outputs p vs w)).
Proof.
  intros Hok. split; [by apply port_new_ok |].
  split; [intros p Hp; by apply get_output_ok |].
  intros p vs. revert w Hok. unfold Port.handle_outputs.
  induction vs as [|v vs IH]; intros w Hok; simpl; [done |].
  by apply IH, handle_output_ok.
Qed.

Lemma port_operations_keep_world_ok_witness :
  world_ok (snd (Port.new two_subscribers))
  /\ (forall p, p < next_id two_subscribers ->
        world_ok (snd (Port.get_output p two_subscribers)))
  /\ (forall p vs, world_ok (Port.handle_outputs p vs two_subscribers)).
Proof.
  apply (port_operations_keep_world_ok two_subscribers).
  apply two_subscribers_ok.
Defined.

(** Emitting on a port reaches its own subscribers only: a queue that is not
    in the port's [out_queues] keeps its contents, and no subscriber list
    changes and no object is created. *)
Theorem emission_reaches_own_subscribers_only
    (w : world) (p : nat) (vs : list value) (q : nat) :
  q ∉ out_queues w p ->
  contents (Port.handle_outputs p vs w) q = contents w q
  /\ same_ports w (Port.handle_outputs p vs w).
Proof.
  unfold Port.handle_outputs. revert w.
  induction vs as [|v vs IH]; intros w Hq; simpl; [done |].
  destruct (IH (Port.handle_output p v w)) as [Hc Hs].
  { by rewrite handle_output_out_queues. }
  split.
  - by rewrite Hc, handle_output_unsubscribed.
  - eapply same_ports_trans; [apply handle_output_frame | exact Hs].
Qed.

(** Queue 3 is subscribed to port 2 and holds a value; emitting on port 0
    leaves it alone. *)
Lemma emission_reaches_own_subscribers_only_witness :
  (out_queues two_ports 0 = [1] /\ out_queues two_ports 2 = [3]
   /\ contents two_ports 3 = [VInt 9])
  /\ contents (Port.handle_outputs 0 [VInt 1; VInt 2] two_ports) 3
     = contents two_ports 3
  /\ same_ports two_ports (Port.handle_outputs 0 [VInt 1; VInt 2] two_ports).
Proof.
  split.
  - vm_compute. repeat split; reflexivity.
  - apply (emission_reaches_own_subscribers_only two_ports 0
             [VInt 1; VInt 2] 3).
    apply (bool_decide_unpack _). vm_compute. exact I.
Defined.

Lemma marker_free_put_all v qs w :
  is_none v = false -> marker_free w ->
  marker_free (foldl (fun w' q => Queue.put q v w') w qs).
Proof.
  intros Hv Hw q. rewrite put_all_contents_count.
  apply Forall_app. split; [apply Hw |]. by apply Forall_replicate.
Qed.

Lemma marker_free_handle_output p v w :
  marker_free w -> marker_free (Port.handle_output p v w).
Proof.
  intros Hw. unfold Port.handle_output.
  destruct (is_none v) eqn:Hv; [done |]. by apply marker_free_put_all.
Qed.

Lemma marker_free_queue_new w : marker_free w -> marker_free (snd (Queue.new w)).
Proof.
  intros Hw q. unfold contents. simpl. rewrite lookup_insert.
  case_decide; [constructor | apply Hw].
Qed.

Lemma marker_free_get q w x w' :
  marker_free w -> Queue.get q w = Some (x, w') ->
  is_none x = false /\ marker_free w'.
Proof.
  intros Hw. unfold Queue.get. pose proof (Hw q) as Hq.
  destruct (contents w q) as [|y rest] eqn:Hc; [done |].
  intros [= <- <-]. apply Forall_cons in Hq as [Hy Hrest].
  split; [done |]. intros q'. unfold contents at 1. simpl.
  rewrite lookup_insert. case_decide; [done | apply Hw].
Qed.

(** The marker never sits in a queue: starting from a store without it, the
    operations of [Port] and [Queue.get] keep every queue free of [None]. *)
Theorem queues_never_hold_the_marker (w : world) :
  marker_free w ->
  marker_free (snd (Port.new w))
  /\ (forall p, marker_free (snd (Port.get_output p w)))
  /\ (forall p vs, marker_free (Port.handle_outputs p vs w))
  /\ (forall q x w', Queue.get q w = Some (x, w') ->
        is_none x = false /\ marker_free w').
Proof.
  intros Hw. split; [done |]. split; [| split].
  - intros p q. unfold Port.get_output. simpl.
    apply (marker_free_queue_new w Hw q).
  - intros p vs. revert w Hw. unfold Port.handle_outputs.
    induction vs as [|v vs IH]; intros w Hw; simpl; [done |].
    by apply IH, marker_free_handle_output.
  - intros q x w'. by apply marker_free_get.
Qed.

Lemma empty_world_marker_free : marker_free empty_world.
Proof. intros q. unfold contents. simpl. rewrite lookup_empty. constructor. Qed.

Lemma marker_free_get_output p w :
  marker_free w -> marker_free (snd (Port.get_output p w)).
Proof. intros Hw q. apply (marker_free_queue_new w Hw q). Qed.

Lemma fed_subscribers_marker_free : marker_free fed_subscribers.
Proof.
  unfold fed_subscribers, Port.handle_outputs. cbn [foldl].
  do 3 apply marker_free_handle_output.
  unfold two_subscribers. do 2 apply marker_free_get_output.
  apply empty_world_marker_free.
Qed.

(** On a port with two subscribers that hold the values emitted so far. *)
Lemma queues_never_hold_the_marker_witness :
  (contents fed_subscribers 1 = [VInt 1; VInt 2]
   /\ Queue.get 1 fed_subscribers <> None)
  /\ marker_free (snd (Port.new fed_subscribers))
  /\ (forall p, marker_free (snd (Port.get_output p fed_subscribers)))
  /\ (forall p vs, marker_free (Port.handle_outputs p vs fed_subscribers))
  /\ (forall q x w', Queue.get q fed_subscribers = Some (x, w') ->
        is_none x = false /\ marker_free w').
Proof.
  split.
  - vm_compute. split; [reflexivity | discriminate].
  - apply (queues_never_hold_the_marker fed_subscribers).
    apply fed_subscribers_marker_free.
Defined.

(** ** TransformMixin *)

Lemma get_inputs_all q xs : forall w,
  contents w q = xs ->
  exists w',
    TransformMixin.get_inputs (length xs) (Some q) w = Some (xs, w')
    /\ contents w' q = [].
Proof.
  induction xs as [|x xs IH]; intros w Hc.
  - by exists w.
  - cbn [length TransformMixin.get_inputs].
    unfold TransformMixin.get_input, Queue.get. rewrite Hc.
    edestruct IH as (w' & Hg & He); [| rewrite Hg; by exists w'].
    unfold contents. simpl. by rewrite lookup_insert_eq.
Qed.

(** A transform layer constructed on an upstream port fetches exactly what
    the port emits afterwards, without the marker and in emission order:
    that many calls of [get_input] return those values, and the next call
    finds the queue empty and blocks. *)
Theorem transform_input_is_fifo (w : world) (upstream : nat)
    (vs : list value) :
  port_ok w upstream ->
  exists q w1 w3,
    TransformMixin.init (Some upstream) w = (Some q, w1)
    /\ TransformMixin.get_inputs (length (non_marker vs)) (Some q)
         (Port.handle_outputs upstream vs w1) = Some (non_marker vs, w3)
    /\ TransformMixin.get_input (Some q) w3 = TransformMixin.WouldBlock.
Proof.
  intros [Hnd Hlt].
  set (w1 := snd (Port.get_output upstream w)).
  assert (Hout : out_queues w1 upstream = out_queues w upstream ++ [next_id w]).
  { unfold w1. by rewrite out_queues_get_output, decide_True. }
  assert (Hnew : next_id w ∉ out_queues w upstream).
  { intros Hin. rewrite Forall_forall in Hlt. apply Hlt in Hin. lia. }
  assert (Hc : contents (Port.handle_outputs upstream vs w1) (next_id w)
               = non_marker vs).
  { rewrite handle_outputs_contents.
    - unfold contents, w1. simpl. by rewrite lookup_insert_eq.
    - rewrite Hout. apply NoDup_app. split; [done |].
      split; [| apply NoDup_singleton].
      intros x Hx Hx'. apply list_elem_of_singleton in Hx'. by subst x.
    - rewrite Hout, elem_of_app, list_elem_of_singleton. by right. }
  destruct (get_inputs_all (next_id w) (non_marker vs) _ Hc) as (w3 & Hg & He).
  exists (next_id w), w1, w3. split; [done |]. split; [done |].
  unfold TransformMixin.get_input, Queue.get. by rewrite He.
Qed.

Lemma transform_input_is_fifo_witness :
  exists q w1 w3,
    TransformMixin.init (Some 0) two_subscribers = (Some q, w1)
    /\ TransformMixin.get_inputs (length (non_marker [VInt 1; VNone; VInt 2]))
         (Some q) (Port.handle_outputs 0 [VInt 1; VNone; VInt 2] w1)
       = Some (non_marker [VInt 1; VNone; VInt 2], w3)
    /\ TransformMixin.get_input (Some q) w3 = TransformMixin.WouldBlock.
Proof.
  apply (transform_input_is_fifo two_subscribers 0 [VInt 1; VNone; VInt 2]).
  split; apply (bool_decide_unpack _); vm_compute; exact I.
Defined.

(** In a store whose queues are free of the marker, [get_input] never returns
    [None]: however many calls are made in a row, every item fetched is a
    value other than [None], and the store they leave is free of the marker
    again. *)
Theorem transform_input_never_marker (n : nat) (port_in : option nat) :
  forall (w : world) (xs : list value) (w' : world),
  marker_free w ->
  TransformMixin.get_inputs n port_in w = Some (xs, w') ->
  Forall (fun x => is_none x = false) xs /\ marker_free w'.
Proof.
  induction n as [|n IH]; intros w xs w' Hw; simpl.
  - intros [= <- <-]. by split.
  - unfold TransformMixin.get_input. destruct port_in as [q|]; [| done].
    destruct (Queue.get q w) as [[x w1]|] eqn:Hg; [| done].
    destruct (marker_free_get q w x w1 Hw Hg) as [Hx Hw1].
    destruct (TransformMixin.get_inputs n (Some q) w1) as [[ys w2]|] eqn:Hn;
      [| done].
    intros [= <- <-]. destruct (IH w1 ys w2 Hw1 Hn) as [Hys Hw2].
    split; [by constructor | done].
Qed.

Lemma transform_input_never_marker_witness :
  Forall (fun x => is_none x = false) [VInt 1; VInt 2]
  /\ marker_free drained_subscriber.
Proof.
  apply (transform_input_never_marker 2 (Some 1) fed_subscribers
           [VInt 1; VInt 2] drained_subscriber).
  - apply fed_subscribers_marker_free.
  - reflexivity.
Defined.

(** ** Dispatch on a multi-port layer *)

(** Whatever the data and whether or not the call raises, dispatch leaves the
    layer's port maps alone, creates no object and changes no subscriber
    list; and on a dictionary it never raises: the missing-port [NameError]
    of its loop and a [KeyError] cannot happen. *)
Theorem dispatch_only_emits (s : mstate) :
  (forall data, emits_only s (snd (MultiOutputMixin.handle_output data s)))
  /\ (forall kvs, fst (MultiOutputMixin.handle_output (VDict kvs) s) = Ok tt).
Proof.
  split; [intros data; apply handle_output_emits |].
  intros kvs. by rewrite handle_output_dict.
Qed.

Lemma handle_output_unfold data s :
  MultiOutputMixin.handle_output data s =
  match for_each (Dict.keys (ports (layer s)) ++ Dict.keys (auto_ports (layer s)))
          (MultiOutputMixin.handle_output_key data) s with
  | (Ok _, s') =>
      (Ok tt, MState (layer s')
                (Port.handle_output (out_port (layer s')) data (store s')))
  | (Raise e, s') => (Raise e, s')
  end.
Proof.
  unfold MultiOutputMixin.handle_output, bind, gets. simpl.
  by destruct (for_each _ _ s) as [[[]|e] s'].
Qed.

Lemma handle_output_key_scalar data key s :
  data = VNone \/ (exists n, data = VInt n) ->
  is_Some (resolve (layer s) key) ->
  MultiOutputMixin.handle_output_key data key s = (Raise TypeError, s).
Proof.
  intros Hd [p Hp]. unfold resolve in Hp.
  unfold MultiOutputMixin.handle_output_key, bind, gets, ret, raise.
  destruct (Dict.get key (ports (layer s))) as [p'|]; simpl.
  - destruct Hd as [-> | [n ->]]; done.
  - rewrite Hp. destruct Hd as [-> | [n ->]]; done.
Qed.

(** Data that is [None] or an integer: a layer without named ports passes it
    to its primary port, as [BaseOutputLayer] does; a layer with at least one
    named port raises [TypeError] at the first key, before anything is
    emitted, the primary port included. *)
Theorem dispatch_of_unsubscriptable (s : mstate) (data : value) :
  data = VNone \/ (exists n, data = VInt n) ->
  (Dict.keys (ports (layer s)) ++ Dict.keys (auto_ports (layer s)) = [] ->
   MultiOutputMixin.handle_output data s =
   (Ok tt, MState (layer s)
             (Port.handle_output (out_port (layer s)) data (store s))))
  /\ (Dict.keys (ports (layer s)) ++ Dict.keys (auto_ports (layer s)) <> [] ->
      MultiOutputMixin.handle_output data s = (Raise TypeError, s)).
Proof.
  intros Hd. rewrite handle_output_unfold.
  pose proof (resolve_keys (layer s)) as Hres.
  destruct (Dict.keys (ports (layer s)) ++ Dict.keys (auto_ports (layer s)))
    as [|key ks]; split; try done.
  intros _. cbn [for_each]. unfold bind at 1.
  rewrite handle_output_key_scalar; [done | done |].
  apply Hres. by left.
Qed.

Lemma dispatch_of_unsubscriptable_witness :
  (Dict.keys (ports (layer ab_state)) ++ Dict.keys (auto_ports (layer ab_state))
     = [] ->
   MultiOutputMixin.handle_output (VInt 7) ab_state =
   (Ok tt, MState (layer ab_state)
             (Port.handle_output (out_port (layer ab_state)) (VInt 7)
                (store ab_state))))
  /\ (Dict.keys (ports (layer ab_state))
        ++ Dict.keys (auto_ports (layer ab_state)) <> [] ->
      MultiOutputMixin.handle_output (VInt 7) ab_state
        = (Raise TypeError, ab_state)).
Proof.
  apply (dispatch_of_unsubscriptable ab_state (VInt 7)).
  right. exists 7%Z. reflexivity.
Defined.

Lemma for_each_string str ks : forall s,
  Forall (fun key => is_Some (resolve (layer s) key)) ks ->
  for_each ks (MultiOutputMixin.handle_output_key (VStr str)) s =
  if existsb (fun key => is_substring key str) ks
  then (Raise TypeError, s) else (Ok tt, s).
Proof.
  induction ks as [|key ks IH]; intros s Hall; [done |].
  apply Forall_cons in Hall as [[p Hp] Hall].
  cbn [for_each existsb]. unfold bind at 1.
  assert (Hk : MultiOutputMixin.handle_output_key (VStr str) key s =
               if is_substring key str then (Raise TypeError, s) else (Ok tt, s)).
  { unfold resolve in Hp.
    unfold MultiOutputMixin.handle_output_key, bind, gets, ret, raise.
    destruct (Dict.get key (ports (layer s))) as [p'|]; simpl.
    - by destruct (is_substring key str).
    - rewrite Hp. simpl. by destruct (is_substring key str). }
  rewrite Hk. destruct (is_substring key str); [done |].
  simpl. by apply IH.
Qed.

(** String data: if some port name occurs in the string as a substring,
    dispatch raises [TypeError] (the string is subscripted with the name) and
    nothing has been emitted; otherwise the string goes to the primary port
    only. *)
Theorem dispatch_of_string (s : mstate) (str : string) :
  MultiOutputMixin.handle_output (VStr str) s =
  if existsb (fun key => is_substring key str)
       (Dict.keys (ports (layer s)) ++ Dict.keys (auto_ports (layer s)))
  then (Raise TypeError, s)
  else (Ok tt, MState (layer s)
                 (Port.handle_output (out_port (layer s)) (VStr str) (store s))).
Proof.
  rewrite handle_output_unfold, for_each_string.
  - by destruct (existsb _ _).
  - apply Forall_forall. intros key. apply resolve_keys.
Qed.

Lemma resolve_injective s k1 k2 p :
  mstate_ok s ->
  resolve (layer s) k1 = Some p -> resolve (layer s) k2 = Some p -> k1 = k2.
Proof.
  intros (_ & _ & _ & Hnd & _). unfold port_ids in Hnd.
  apply NoDup_cons in Hnd as [_ Hnd].
  apply NoDup_app in Hnd as (Hndp & Hsep & Hnda).
  unfold resolve.
  destruct (Dict.get k1 (ports (layer s))) as [p1|] eqn:H1;
    destruct (Dict.get k2 (ports (layer s))) as [p2|] eqn:H2.
  - intros [= ->] [= ->].
    eapply nodup_snd_inj; [apply Hndp | by apply dict_get_elem ..].
  - intros [= ->] H2'. apply dict_get_value in H1, H2'. exfalso. by eapply Hsep.
  - intros H1' [= ->]. apply dict_get_value in H2, H1'. exfalso. by eapply Hsep.
  - intros H1' H2'.
    eapply nodup_snd_inj; [apply Hnda | by apply dict_get_elem ..].
Qed.

Lemma resolve_not_primary s key :
  mstate_ok s -> resolve (layer s) key <> Some (out_port (layer s)).
Proof.
  intros (_ & _ & _ & Hnd & _). unfold port_ids in Hnd.
  apply NoDup_cons in Hnd as [Hout _]. rewrite elem_of_app in Hout.
  unfold resolve.
  destruct (Dict.get key (ports (layer s))) as [p|] eqn:H1.
  - intros [= ->]. apply dict_get_value in H1. tauto.
  - intros H2%dict_get_value. tauto.
Qed.

Lemma sent_to_absent l kvs p name (ks : list string) :
  name ∉ ks ->
  (forall key, resolve l key = Some p -> key = name) ->
  flat_map (sent_to l kvs p) ks = [].
Proof.
  intros Hno Honly. apply flat_map_nil. intros key Hkey. unfold sent_to.
  destruct (resolve l key) as [p'|] eqn:Hr; [| done].
  destruct (Dict.get key kvs); [| done].
  rewrite decide_False; [done |]. intros ->. apply Honly in Hr. by subst.
Qed.

Lemma sent_to_missing_key l kvs p name (ks : list string) :
  Dict.get name kvs = None ->
  (forall key, resolve l key = Some p -> key = name) ->
  flat_map (sent_to l kvs p) ks = [].
Proof.
  intros Hv Honly. apply flat_map_nil. intros key Hkey. unfold sent_to.
  destruct (resolve l key) as [p'|] eqn:Hr; [| done].
  destruct (Dict.get key kvs) eqn:Hk; [| done].
  rewrite decide_False; [done |]. intros ->. apply Honly in Hr. congruence.
Qed.

(** On a well-formed layer, a port bound to a name in exactly one of the two
    maps gets from a dispatched dictionary the value stored under that name,
    once, and nothing when the dictionary has no such key; the other keys of
    the dictionary and the other ports do not matter. *)
Theorem named_port_receives_its_key (s : mstate) (name : string) (p : nat)
    (kvs : list (string * value)) :
  mstate_ok s ->
  (Dict.get name (ports (layer s)) = Some p
   /\ Dict.get name (auto_ports (layer s)) = None)
  \/ (Dict.get name (ports (layer s)) = None
      /\ Dict.get name (auto_ports (layer s)) = Some p) ->
  exists s',
    MultiOutputMixin.handle_output (VDict kvs) s = (Ok tt, s')
    /\ forall q, q ∈ out_queues (store s) p ->
         contents (store s') q =
         contents (store s) q
         ++ match Dict.get name kvs with
            | Some v => emitted v
            | None => []
            end.
Proof.
  intros Hok Hb.
  eexists. split; [apply handle_output_dict |]. cbn [store].
  assert (Hw := proj1 Hok). assert (Hdisj := proj1 (proj2 Hw)).
  assert (Hres : resolve (layer s) name = Some p).
  { unfold resolve. by destruct Hb as [[-> _] | [-> ->]]. }
  assert (Honly : forall key, resolve (layer s) key = Some p -> key = name).
  { intros key Hk. by apply (resolve_injective s key name p). }
  assert (Hprim : out_port (layer s) <> p).
  { intros E. apply (resolve_not_primary s name Hok). by rewrite E. }
  intros q Hq. rewrite emit_all_contents by done.
  rewrite flat_map_app, (received_named _ _ _ _ _ _ Hw Hq), flat_map_app.
  simpl. rewrite (decide_False (P := q ∈ _)), !app_nil_r;
    [| intros Hq'; apply Hprim; eauto].
  f_equal. destruct (Dict.get name kvs) as [v|] eqn:Hv.
  - destruct Hok as (_ & Hkp & Hka & _).
    destruct Hb as [[Hp Ha] | [Hp Ha]].
    + rewrite (sent_to_keys_once _ _ p name v (Dict.keys (ports (layer s))));
        try done; [| apply dict_get_keys; by eexists].
      rewrite (sent_to_absent _ _ p name); [by rewrite app_nil_r | | done].
      rewrite dict_get_keys, Ha. by intros [? ?].
    + rewrite (sent_to_absent _ _ p name (Dict.keys (ports (layer s))));
        [| rewrite dict_get_keys, Hp; by intros [? ?] | done].
      rewrite (sent_to_keys_once _ _ p name v); try done.
      apply dict_get_keys. by eexists.
  - by rewrite !(sent_to_missing_key _ _ p name).
Qed.

Lemma named_port_receives_its_key_witness :
  exists s',
    MultiOutputMixin.handle_output
      (VDict [("b", VInt 4); ("z", VInt 5)]) ab_state = (Ok tt, s')
    /\ forall q, q ∈ out_queues (store ab_state) 2 ->
         contents (store s') q =
         contents (store ab_state) q
         ++ match Dict.get "b" [("b", VInt 4); ("z", VInt 5)] with
            | Some v => emitted v
            | None => []
            end.
Proof.
  apply (named_port_receives_its_key ab_state "b" 2
           [("b", VInt 4); ("z", VInt 5)]).
  - apply ab_state_ok.
  - left. split; reflexivity.
Defined.

(** On a well-formed layer every subscriber of the primary port gets each
    dispatched dictionary whole, exactly once, whatever named ports exist. *)
Theorem primary_port_receives_whole_value (s : mstate)
    (kvs : list (string * value)) :
  mstate_ok s ->
  exists s',
    MultiOutputMixin.handle_output (VDict kvs) s = (Ok tt, s')
    /\ forall q, q ∈ out_queues (store s) (out_port (layer s)) ->
         contents (store s') q = contents (store s) q ++ [VDict kvs].
Proof.
  intros Hok.
  eexists. split; [apply handle_output_dict |]. cbn [store].
  assert (Hw := proj1 Hok).
  intros q Hq. rewrite emit_all_contents by done.
  rewrite flat_map_app, (received_named _ _ _ _ _ _ Hw Hq). simpl.
  rewrite decide_True by done. rewrite flat_map_nil; [by rewrite app_nil_r |].
  intros key _. unfold sent_to.
  destruct (resolve (layer s) key) as [p'|] eqn:Hr; [| done].
  destruct (Dict.get key kvs); [| done].
  rewrite decide_False; [done |]. intros ->.
  by apply (resolve_not_primary s key).
Qed.

Lemma primary_port_receives_whole_value_witness :
  exists s',
    MultiOutputMixin.handle_output ac_value ab_state = (Ok tt, s')
    /\ forall q, q ∈ out_queues (store ab_state) (out_port (layer ab_state)) ->
         contents (store s') q = contents (store ab_state) q ++ [ac_value].
Proof.
  apply (primary_port_receives_whole_value ab_state
           [("a", VInt 1); ("c", VInt 2)]).
  apply ab_state_ok.
Defined.

(** ** Registration and resolution on a multi-port layer *)

(** A layer built by [__init__] on a well-formed store stays well formed
    under any sequence of calls, raising or not: distinct names per map,
    distinct [Port] objects, no queue subscribed to two ports. *)
Theorem layer_stays_well_formed (w : world) (os : list op) :
  world_ok w -> mstate_ok (run_ops os (MultiOutputMixin.init w)).
Proof. intros Hw. by apply run_ops_ok, init_ok. Qed.

Lemma layer_stays_well_formed_witness :
  mstate_ok (run_ops [GetPort "x"; RegisterPort "x" false; Subscribe "x";
                      HandleOutput (VInt 3); RegisterPort "x" false]
               (MultiOutputMixin.init empty_world)).
Proof.
  apply (layer_stays_well_formed empty_world). apply empty_world_ok.
Defined.

(** A successful registration is seen by resolution: after registering a name
    in a map that did not have it (as auto-created only if the name is not
    declared), [get_port] returns the [Port] made by the registration, which
    has no subscriber yet, and changes nothing. *)
Theorem register_then_resolve (s : mstate) (name : string) (auto : bool) :
  Dict.get name (MultiOutputMixin.port_list auto s) = None ->
  (auto = true -> Dict.get name (ports (layer s)) = None) ->
  exists s1,
    MultiOutputMixin._register_port name auto s = (Ok tt, s1)
    /\ MultiOutputMixin.get_port name s1 = (Ok (next_id (store s)), s1)
    /\ out_queues (store s1) (next_id (store s)) = [].
Proof.
  intros Hfresh Hdecl. eexists. split; [by apply register_port_new |].
  split.
  - destruct auto; simpl in *.
    + apply get_port_auto; simpl; [by apply Hdecl |].
      rewrite <- (dict_set_fresh name (next_id (store s))) by done.
      apply dict_get_set_eq.
    + apply get_port_declared. simpl.
      rewrite <- (dict_set_fresh name (next_id (store s))) by done.
      apply dict_get_set_eq.
  - destruct auto; unfold out_queues; simpl; by rewrite lookup_insert_eq.
Qed.

Lemma register_then_resolve_witness :
  exists s1,
    MultiOutputMixin._register_port "c" false ab_state = (Ok tt, s1)
    /\ MultiOutputMixin.get_port "c" s1 = (Ok (next_id (store ab_state)), s1)
    /\ out_queues (store s1) (next_id (store ab_state)) = [].
Proof.
  apply (register_then_resolve ab_state "c" false); [reflexivity | done].
Defined.

(** Resolution is idempotent in every state: a second [get_port] of the same
    name returns the same [Port] as the first and changes nothing. *)
Theorem get_port_idempotent (s : mstate) (name : string) :
  MultiOutputMixin.get_port name (snd (MultiOutputMixin.get_port name s)) =
  (fst (MultiOutputMixin.get_port name s),
   snd (MultiOutputMixin.get_port name s)).
Proof.
  destruct (Dict.get name (ports (layer s))) as [p|] eqn:H1.
  { rewrite (get_port_declared _ _ _ H1). simpl. by apply get_port_declared. }
  destruct (Dict.get name (auto_ports (layer s))) as [p|] eqn:H2.
  { rewrite (get_port_auto _ _ _ H1 H2). simpl. by apply get_port_auto. }
  rewrite (get_port_fresh _ _ H1 H2). simpl.
  apply get_port_auto; simpl; [done |].
  rewrite <- (dict_set_fresh name (next_id (store s))) by done.
  apply dict_get_set_eq.
Qed.

(** ** The main loop and the queues around it *)

Section LoopQueues.
Import BaseLayer.
Context {U : Type}.
Variable post_init : fields U -> value -> U.
Variable transform : fields U -> value -> value * U.
Variable handle_signal : fields U -> value -> U.

Lemma drain_frame fuel q : forall (s s' : lstate U),
  drain handle_signal fuel q s = Done s' ->
  forall q', q' <> q -> contents (store s') q' = contents (store s) q'.
Proof.
  induction fuel as [|fuel IH]; intros s s' Hd q' Hne; simpl in Hd; [done |].
  destruct (Queue.empty q (store s)); [by injection Hd as <- |].
  unfold Queue.get in Hd. destruct (contents (store s) q) as [|x rest]; [done |].
  rewrite (IH _ _ Hd q' Hne). unfold contents. simpl.
  by rewrite lookup_insert_ne.
Qed.

Lemma get_signal_frame fuel (s s' : lstate U) :
  get_signal handle_signal fuel s = Done s' ->
  forall q', signal_in (self s) <> Some q' ->
  contents (store s') q' = contents (store s) q'.
Proof.
  unfold get_signal. simpl. intros Hg q' Hq'.
  destruct (signal_in (self s)) as [q|] eqn:Hq.
  - rewrite (drain_frame _ _ _ _ Hg q'); [done | congruence].
  - by injection Hg as <-.
Qed.

Lemma put_msgs_spec q msgs : forall w,
  same_ports w (foldl (fun w' x => Queue.put q x w') w msgs)
  /\ forall q', q' <> q ->
       contents (foldl (fun w' x => Queue.put q x w') w msgs) q' = contents w q'.
Proof.
  induction msgs as [|x msgs IH]; intros w; simpl; [done |].
  destruct (IH (Queue.put q x w)) as [Hs Hc]. split.
  - eapply same_ports_trans; [| exact Hs]. done.
  - intros q' Hne. rewrite Hc, contents_put, decide_False by done. done.
Qed.

Lemma deliver_frame msgs (s : lstate U) :
  same_ports (store s) (store (deliver msgs s))
  /\ forall q', signal_in (self s) <> Some q' ->
       contents (store (deliver msgs s)) q' = contents (store s) q'.
Proof.
  unfold deliver. destruct (signal_in (self s)) as [q|]; [| done]. simpl.
  destruct (put_msgs_spec q msgs (store s)) as [Hs Hc].
  split; [done |]. intros q' Hq'. apply Hc. congruence.
Qed.
Lemma outputs_app tr tr' : outputs (tr ++ tr') = outputs tr ++ outputs tr'.
Proof. apply omap_app. Qed.

Lemma outputs_of_signals msgs : outputs (map EvHandleSignal msgs) = [].
Proof. induction msgs as [|x msgs IH]; [done | exact IH]. Qed.

(** One iteration seen from the queues, on a layer whose control queue is
    not fed by its own output. *)
Lemma iteration_queues t (s : lstate U) :
  no_feedback s ->
  NoDup (out_queues (store s) (out_port (self s))) ->
  exists s',
    iteration post_init transform handle_signal t s = Done s'
    /\ signal_in (self s') = signal_in (self s)
    /\ out_port (self s') = out_port (self s)
    /\ same_ports (store s) (store s')
    /\ (is_none (input t) = true ->
          outputs (trace s') = outputs (trace s)
          /\ pending s' = pending (deliver (signals_sent t) s)
          /\ forall q, q ∈ out_queues (store s) (out_port (self s)) ->
               contents (store s') q = contents (store s) q)
    /\ (is_none (input t) = false ->
          pending s' = []
          /\ exists flds,
               outputs (trace s') =
                 outputs (trace s) ++ emitted (fst (transform flds (input t)))
               /\ forall q, q ∈ out_queues (store s) (out_port (self s)) ->
                    contents (store s') q =
                    contents (store s) q
                    ++ emitted (fst (transform flds (input t)))).
Proof.
  intros Hnf Hnd. unfold iteration.
  destruct (deliver_fields (signals_sent t) s) as [Hself Htrace].
  destruct (deliver_frame (signals_sent t) s) as [Hsp Hfr].
  set (s0 := log (EvGetInput (input t)) (deliver (signals_sent t) s)).
  assert (Hs0 : self s0 = self s) by done.
  assert (Ht0 : outputs (trace s0) = outputs (trace s)).
  { unfold s0. simpl. rewrite Htrace, outputs_app. simpl. by rewrite app_nil_r. }
  assert (Hsubs : forall q, q ∈ out_queues (store s) (out_port (self s)) ->
                            signal_in (self s) <> Some q).
  { intros q Hq E. unfold no_feedback in Hnf. rewrite E in Hnf. done. }
  destruct (is_none (input t)) eqn:Hin.
  - exists s0. rewrite Hs0. do 3 (split; [done |]). split; [exact Hsp |].
    split; [| done]. intros _. split; [done |]. split; [done |].
    intros q Hq. apply Hfr. by apply Hsubs.
  - destruct (get_signal_spec handle_signal (S (length (pending s0))) s0)
      as (s1 & Hg & Hp1 & Ht1 & _ & _ & Hi1 & Ho1 & Hsp1); [lia |].
    pose proof (get_signal_frame _ _ _ Hg) as Hfr1.
    rewrite Hg. clear Hg. rewrite Hs0 in *.
    assert (Hout1 : outputs (trace s1) = outputs (trace s)).
    { rewrite Ht1, outputs_app, outputs_of_signals, Ht0. by rewrite app_nil_r. }
    set (s2 := if is_first (self s1)
               then set_is_first false (call_post_init post_init (input t) s1)
               else s1).
    assert (H2 : store s2 = store s1 /\ signal_in (self s2) = signal_in (self s1)
                 /\ out_port (self s2) = out_port (self s1)
                 /\ outputs (trace s2) = outputs (trace s1)).
    { unfold s2. destruct (is_first (self s1)); simpl; [| done].
      rewrite outputs_app. simpl. by rewrite app_nil_r. }
    destruct H2 as (Hst2 & Hi2 & Ho2 & Hout2).
    unfold call_transform.
    destruct (transform (self s2) (input t)) as [r u] eqn:Htr.
    assert (Hr : r = fst (transform (self s2) (input t))) by (by rewrite Htr).
    assert (Hports : same_ports (store s) (store s1)).
    { eapply same_ports_trans; [exact Hsp | exact Hsp1]. }
    assert (Hqs : forall q, q ∈ out_queues (store s) (out_port (self s)) ->
                   contents (store s1) q = contents (store s) q).
    { intros q Hq. rewrite Hfr1 by (by apply Hsubs). apply Hfr. by apply Hsubs. }
    destruct (is_none r) eqn:Hnone.
    + eexists. split; [reflexivity |]. simpl.
      rewrite Hi2, Hi1, Ho2, Ho1, Hst2. do 3 (split; [done |]).
      split; [done |]. intros _. split.
      { unfold pending in *. simpl. by rewrite Hi2, Hst2. }
      exists (self s2). rewrite <- Hr. unfold emitted. rewrite Hnone, !app_nil_r.
      split.
      * rewrite outputs_app. simpl. by rewrite app_nil_r, Hout2.
      * intros q Hq. rewrite app_nil_r. by apply Hqs.
    + eexists. split; [reflexivity |]. simpl.
      rewrite Hi2, Hi1, Ho2, Ho1, Hst2. do 2 (split; [done |]).
      split.
      { eapply same_ports_trans; [exact Hports | apply handle_output_frame]. }
      split; [done |]. intros _. split.
      { unfold pending in *. simpl. rewrite Hi2, Hst2, Hi1.
        rewrite Hi1 in Hp1.
        destruct (signal_in (self s)) as [qs|] eqn:Hqsig; [| done].
        rewrite handle_output_unsubscribed; [done |].
        rewrite ?Ho2, ?Ho1, (same_ports_out_queues _ _ _ Hports).
        unfold no_feedback in Hnf. by rewrite Hqsig in Hnf. }
      exists (self s2). rewrite <- Hr.
      split.
      * rewrite !outputs_app. simpl. rewrite app_nil_r, Hout2, Hout1.
        unfold emitted. by rewrite Hnone.
      * intros q Hq. rewrite handle_output_contents.
        -- rewrite (same_ports_out_queues _ _ _ Hports), decide_True by done.
           by rewrite Hqs.
        -- by rewrite (same_ports_out_queues _ _ _ Hports).
Qed.
Lemma non_marker_cons x xs : non_marker (x :: xs) = emitted x ++ non_marker xs.
Proof.
  unfold non_marker, emitted. rewrite filter_cons.
  destruct (is_none x); by case_decide.
Qed.

Lemma no_feedback_step (s s' : lstate U) :
  signal_in (self s') = signal_in (self s) ->
  out_port (self s') = out_port (self s) ->
  same_ports (store s) (store s') ->
  out_queues (store s') (out_port (self s'))
    = out_queues (store s) (out_port (self s))
  /\ (no_feedback s -> no_feedback s').
Proof.
  intros Hi Ho Hsp.
  assert (E : out_queues (store s') (out_port (self s'))
              = out_queues (store s) (out_port (self s))).
  { by rewrite Ho, (same_ports_out_queues _ _ _ Hsp). }
  split; [done |]. unfold no_feedback. by rewrite Hi, E.
Qed.

(** No control message is lost, duplicated or reordered: over any run of a
    layer whose control queue is not fed by its own output, the messages
    handled so far followed by those still queued are the messages handled
    and queued at the start followed by all that arrived, in arrival order.
    Messages that arrive during skipped iterations wait for the next drain. *)
Theorem control_messages_conserved (script : list tick) (s0 : lstate U)
    (q : nat) :
  signal_in (self s0) = Some q ->
  no_feedback s0 ->
  NoDup (out_queues (store s0) (out_port (self s0))) ->
  exists s,
    state_of (process_loop post_init transform handle_signal script s0) = Some s
    /\ handled_signals (trace s) ++ contents (store s) q =
       handled_signals (trace s0) ++ contents (store s0) q
       ++ concat (map signals_sent (executed script)).
Proof.
  revert s0. induction script as [|t script IH]; intros s0 Hq Hnf Hnd; simpl.
  - exists s0. by rewrite app_nil_r.
  - destruct (stop_is_set t).
    + exists s0. by rewrite app_nil_r.
    + destruct (iteration_queues t s0 Hnf Hnd)
        as (s1 & Hit & Hi & Ho & Hsp & Hskip & Hrun).
      destruct (iteration_spec post_init transform handle_signal t s0)
        as (s1' & Hit' & _ & _ & _ & _ & Hrun' & Hskip').
      rewrite Hit in Hit'. injection Hit' as <-. rewrite Hit.
      destruct (no_feedback_step s0 s1 Hi Ho Hsp) as [Eout Hnf1].
      destruct (IH s1) as (s & Hst & Hs);
        [by rewrite Hi | by apply Hnf1 | by rewrite Eout |].
      exists s. split; [done |]. rewrite Hs. simpl.
      assert (Hp1 : pending s1 = contents (store s1) q)
        by (unfold pending; by rewrite Hi, Hq).
      rewrite <- Hp1. rewrite (pending_deliver _ _ _ Hq) in *.
      destruct (is_none (input t)) eqn:Hin.
      * destruct (Hskip eq_refl) as (_ & Hp & _).
        destruct (Hskip' eq_refl) as [_ Hh].
        rewrite Hp, Hh, <- !app_assoc. done.
      * destruct (Hrun eq_refl) as [Hp _].
        destruct (Hrun' eq_refl) as [_ Hh].
        rewrite Hp, Hh, <- !app_assoc. done.
Qed.

(** With a [transform] whose result depends on the data only, the layer
    passes to [handle_output], and every subscriber of its output port
    receives, exactly the results of the inputs that are not [None], without
    the results that are [None], in input order, up to the iteration at which
    the stop event is found set. *)
Theorem layer_relays_transformed_inputs (f : value -> value)
    (script : list tick) (s0 : lstate U) :
  (forall flds d, fst (transform flds d) = f d) ->
  no_feedback s0 ->
  NoDup (out_queues (store s0) (out_port (self s0))) ->
  exists s,
    state_of (process_loop post_init transform handle_signal script s0) = Some s
    /\ outputs (trace s) =
       outputs (trace s0)
       ++ non_marker (map f (non_marker (map input (executed script))))
    /\ forall q, q ∈ out_queues (store s0) (out_port (self s0)) ->
         contents (store s) q =
         contents (store s0) q
         ++ non_marker (map f (non_marker (map input (executed script)))).
Proof.
  intros Hpure. revert s0.
  induction script as [|t script IH]; intros s0 Hnf Hnd; simpl.
  - exists s0. split; [done |]. split; [by rewrite app_nil_r |].
    intros q _. by rewrite app_nil_r.
  - destruct (stop_is_set t).
    + exists s0. split; [done |]. split; [by rewrite app_nil_r |].
      intros q _. by rewrite app_nil_r.
    + destruct (iteration_queues t s0 Hnf Hnd)
        as (s1 & Hit & Hi & Ho & Hsp & Hskip & Hrun).
      rewrite Hit.
      destruct (no_feedback_step s0 s1 Hi Ho Hsp) as [Eout Hnf1].
      destruct (IH s1) as (s & Hst & Hs & Hc);
        [by apply Hnf1 | by rewrite Eout |].
      exists s. split; [done |]. rewrite Eout in Hc.
      simpl. rewrite non_marker_cons.
      destruct (is_none (input t)) eqn:Hin.
      * assert (emitted (input t) = []) as -> by (unfold emitted; by rewrite Hin).
        simpl. destruct (Hskip eq_refl) as (Ho1 & _ & Hq1).
        split; [by rewrite Hs, Ho1 |].
        intros q Hq. by rewrite Hc, Hq1.
      * assert (emitted (input t) = [input t]) as ->
          by (unfold emitted; by rewrite Hin).
        simpl. rewrite non_marker_cons.
        destruct (Hrun eq_refl) as (_ & flds & Ho1 & Hq1).
        rewrite Hpure in Ho1, Hq1.
        split; [by rewrite Hs, Ho1, <- app_assoc |].
        intros q Hq. by rewrite Hc, Hq1, <- app_assoc.
Qed.

(** A layer without control input never calls [handle_signal], whatever is
    sent; its [signal] keeps its value while every fetched item is [None] and
    is [None] once an iteration has fetched an item other than [None]. *)
Theorem uncontrolled_layer_handles_nothing (script : list tick)
    (s0 : lstate U) :
  signal_in (self s0) = None ->
  exists s,
    state_of (process_loop post_init transform handle_signal script s0) = Some s
    /\ handled_signals (trace s) = handled_signals (trace s0)
    /\ signal (self s) =
       match non_marker (map input (executed script)) with
       | [] => signal (self s0)
       | _ :: _ => VNone
       end.
Proof.
  revert s0. induction script as [|t script IH]; intros s0 Hq; simpl.
  - by exists s0.
  - destruct (stop_is_set t); [by exists s0 |].
    destruct (iteration_spec post_init transform handle_signal t s0)
      as (s1 & Hit & Hi & _ & _ & _ & Hrun & Hskip).
    rewrite Hit. rewrite Hq in Hi.
    destruct (IH s1 Hi) as (s & Hst & Hh & Hsig).
    exists s. split; [done |].
    rewrite (pending_no_input _ _ Hq) in Hrun.
    simpl. rewrite non_marker_cons. unfold emitted.
    destruct (is_none (input t)) eqn:Hin.
    + destruct (Hskip eq_refl) as [Hs1 Hh1]. split; [by rewrite Hh, Hh1 |].
      simpl. by rewrite Hsig, Hs1.
    + destruct (Hrun eq_refl) as [Hs1 Hh1].
      split; [by rewrite Hh, Hh1, app_nil_r |]. simpl.
      rewrite Hsig, Hs1. by destruct (non_marker (map input (executed script))).
Qed.
End LoopQueues.

(** Witnesses on [BaseLayer] with its own methods. *)
Lemma plain_start_no_feedback :
  no_feedback Plain.start
  /\ NoDup (out_queues (BaseLayer.store Plain.start)
              (BaseLayer.out_port (BaseLayer.self Plain.start))).
Proof.
  split; apply (bool_decide_unpack _); vm_compute; exact I.
Qed.

Lemma control_messages_conserved_witness :
  exists s,
    state_of (Plain.process_loop
                [Tick false VNone [VStr "a"];
                 Tick false (VInt 1) [VStr "b"];
                 Tick false VNone [VStr "c"]] Plain.start) = Some s
    /\ BaseLayer.handled_signals (BaseLayer.trace s)
       ++ contents (BaseLayer.store s) 0 =
       BaseLayer.handled_signals (BaseLayer.trace Plain.start)
       ++ contents (BaseLayer.store Plain.start) 0
       ++ concat (map signals_sent (executed
            [Tick false VNone [VStr "a"];
             Tick false (VInt 1) [VStr "b"];
             Tick false VNone [VStr "c"]])).
Proof.
  apply (control_messages_conserved Plain.post_init Plain.transform
           Plain.handle_signal _ Plain.start 0).
  - reflexivity.
  - apply plain_start_no_feedback.
  - apply plain_start_no_feedback.
Defined.

Lemma layer_relays_transformed_inputs_witness :
  exists s,
    state_of (Plain.process_loop
                [Tick false (VInt 1) []; Tick false VNone [];
                 Tick false (VInt 2) []; Tick true (VInt 3) []]
                Plain.start) = Some s
    /\ outputs (BaseLayer.trace s) =
       outputs (BaseLayer.trace Plain.start)
       ++ non_marker (map (fun d => d) (non_marker (map input (executed
            [Tick false (VInt 1) []; Tick false VNone [];
             Tick false (VInt 2) []; Tick true (VInt 3) []]))))
    /\ forall q,
         q ∈ out_queues (BaseLayer.store Plain.start)
               (BaseLayer.out_port (BaseLayer.self Plain.start)) ->
         contents (BaseLayer.store s) q =
         contents (BaseLayer.store Plain.start) q
         ++ non_marker (map (fun d => d) (non_marker (map input (executed
              [Tick false (VInt 1) []; Tick false VNone [];
               Tick false (VInt 2) []; Tick true (VInt 3) []])))).
Proof.
  apply (layer_relays_transformed_inputs Plain.post_init Plain.transform
           Plain.handle_signal (fun d => d) _ Plain.start).
  - reflexivity.
  - apply plain_start_no_feedback.
  - apply plain_start_no_feedback.
Defined.

Lemma uncontrolled_layer_handles_nothing_witness :
  exists s,
    state_of (Plain.process_loop
                [Tick false VNone [VStr "a"]; Tick false (VInt 1) [VStr "b"]]
                uncontrolled) = Some s
    /\ BaseLayer.handled_signals (BaseLayer.trace s) =
       BaseLayer.handled_signals (BaseLayer.trace uncontrolled)
    /\ BaseLayer.signal (BaseLayer.self s) =
       match non_marker (map input (executed
               [Tick false VNone [VStr "a"]; Tick false (VInt 1) [VStr "b"]]))
       with
       | [] => BaseLayer.signal (BaseLayer.self uncontrolled)
       | _ :: _ => VNone
       end.
Proof.
  apply (uncontrolled_layer_handles_nothing Plain.post_init Plain.transform
           Plain.handle_signal _ uncontrolled).
  reflexivity.
Defined.

(** ** FPSMixin *)

Section FPSFacts.
Import FPSMixin.
Context {F : Type}.
Variable fdiv : nat -> Z -> F.

Lemma tick_in_window t now (s : state F) :
  (t - start_time s < time_window s)%Z ->
  tick fdiv t now s =
  Ticked (State (S (count s)) (start_time s) (time_window s) (print_fps s)
                (fps s) (printed s)).
Proof.
  intros H. unfold tick. simpl.
  destruct (Z.leb_spec (time_window s) (t - start_time s)); [lia | done].
Qed.

Lemma tick_keeps_settings t now (s : state F) :
  time_window (state_after (tick fdiv t now s)) = time_window s
  /\ print_fps (state_after (tick fdiv t now s)) = print_fps s
  /\ (print_fps s = false ->
      printed (state_after (tick fdiv t now s)) = printed s).
Proof.
  unfold tick. simpl.
  destruct (time_window s <=? t - start_time s)%Z; [| done].
  destruct (t - start_time s =? 0)%Z; [done |]. simpl.
  repeat split. by intros ->.
Qed.

(** [tick] raises exactly when the window is zero or negative and the clock
    reads the start of the window; the count has then been incremented and
    nothing else has changed. *)
Theorem tick_raises_iff (t now : Z) (s : state F) :
  (exists s', tick fdiv t now s = ZeroDivisionError s')
  <-> ((time_window s <= 0)%Z /\ t = start_time s).
Proof.
  unfold tick. simpl.
  destruct (Z.leb_spec (time_window s) (t - start_time s)) as [Hw|Hw];
    [destruct (Z.eqb_spec (t - start_time s) 0) as [He|He] |].
  - split; [intros _; lia | intros _; by eexists].
  - split; [by intros [s' ?] | intros [_ ->]; lia].
  - split; [by intros [s' ?] | intros [H ->]; lia].
Qed.

(** With a positive window no sequence of ticks raises, whatever the clock
    reads, and the window length and the print flag never change. *)
Theorem ticks_never_raise_with_positive_window (readings : list (Z * Z))
    (s : state F) :
  (0 < time_window s)%Z ->
  exists s',
    ticks fdiv readings s = Ticked s'
    /\ time_window s' = time_window s
    /\ print_fps s' = print_fps s.
Proof.
  revert s. induction readings as [|[t now] readings IH]; intros s Hw; simpl.
  - by exists s.
  - destruct (tick_keeps_settings t now s) as (Htw & Hpf & _).
    destruct (tick fdiv t now s) as [s1|s1] eqn:Ht.
    + simpl in *. destruct (IH s1) as (s' & Hs' & Htw' & Hpf'); [lia |].
      exists s'. split; [done |]. split; congruence.
    + exfalso. assert (exists s', tick fdiv t now s = ZeroDivisionError s')
        as Hr by (by eexists).
      apply tick_raises_iff in Hr. lia.
Qed.

(** The published rate: after ticks that all read a time inside the window,
    the tick that reads a time at or past its end stores the quotient of the
    number of ticks since the last reset, itself included, by the time
    elapsed since the window began, prints it if printing is on, and starts a
    new window with a count of zero. *)
Theorem rate_published_at_window_end (inside : list (Z * Z)) (t now : Z)
    (s : state F) :
  Forall (fun r => (fst r - start_time s < time_window s)%Z) inside ->
  (time_window s <= t - start_time s)%Z ->
  t <> start_time s ->
  exists s',
    ticks fdiv (inside ++ [(t, now)]) s = Ticked s'
    /\ fps s' = fdiv (count s + length inside + 1) (t - start_time s)
    /\ count s' = 0
    /\ start_time s' = now
    /\ printed s' = printed s ++ (if print_fps s then [fps s'] else []).
Proof.
  revert s. induction inside as [|[t0 now0] inside IH]; intros s Hin Hw Hne.
  - simpl. unfold tick. simpl.
    destruct (Z.leb_spec (time_window s) (t - start_time s)); [| lia].
    destruct (Z.eqb_spec (t - start_time s) 0); [lia |].
    eexists. split; [reflexivity |]. simpl.
    replace (count s + 0 + 1) with (S (count s)) by lia.
    repeat split. destruct (print_fps s); [done | by rewrite app_nil_r].
  - apply Forall_cons in Hin as [H0 Hin]. simpl in H0.
    cbn [app ticks]. rewrite tick_in_window by done.
    destruct (IH (State (S (count s)) (start_time s) (time_window s)
                        (print_fps s) (fps s) (printed s)))
      as (s' & Hs' & Hf & Hc & Hst & Hp); [done | done | done |].
    exists s'. split; [done |]. simpl in *.
    split; [rewrite Hf; f_equal; lia |]. by repeat split.
Qed.

Variable fzero : F.

(** A layer printing is off after [__init__], so no sequence of ticks prints
    anything, whether or not one of them raises. *)
Theorem ticks_after_init_print_nothing (window now0 : Z)
    (readings : list (Z * Z)) :
  printed (state_after (ticks fdiv readings (init fzero window now0))) = [].
Proof.
  assert (H : forall s : state F, print_fps s = false ->
            printed (state_after (ticks fdiv readings s)) = printed s).
  { induction readings as [|[t now] readings IH]; intros s Hs; simpl; [done |].
    destruct (tick_keeps_settings t now s) as (_ & Hpf & Hpr).
    destruct (tick fdiv t now s) as [s1|s1]; simpl in *.
    - rewrite IH by congruence. by apply Hpr.
    - by apply Hpr. }
  by rewrite H.
Qed.
End FPSFacts.

Lemma tick_raises_iff_witness :
  exists s',
    FPSMixin.tick (F:=nat * Z) pair 10 11 (FPSMixin.init (0%nat, 1%Z) 0 10)
    = FPSMixin.ZeroDivisionError s'.
Proof.
  apply (tick_raises_iff pair 10 11 (FPSMixin.init (0%nat, 1%Z) 0 10)).
  split; [simpl; lia | reflexivity].
Defined.

Lemma ticks_never_raise_with_positive_window_witness :
  exists s',
    FPSMixin.ticks (F:=nat * Z) pair [(10, 10); (5, 5); (0, 0)]%Z
      (FPSMixin.init (0%nat, 1%Z) 5 0) = FPSMixin.Ticked s'
    /\ FPSMixin.time_window s'
       = FPSMixin.time_window (FPSMixin.init (0%nat, 1%Z) 5 0)
    /\ FPSMixin.print_fps s'
       = FPSMixin.print_fps (FPSMixin.init (0%nat, 1%Z) 5 0).
Proof.
  apply (ticks_never_raise_with_positive_window pair
           [(10, 10); (5, 5); (0, 0)]%Z (FPSMixin.init (0%nat, 1%Z) 5 0)).
  simpl. lia.
Defined.

(** A window of five seconds, nine ticks inside it and the tenth at its end:
    the rate stored is the quotient of 10 by five seconds. *)
Lemma rate_published_at_window_end_witness :
  exists s',
    FPSMixin.ticks (F:=nat * Z) pair
      (replicate 9 (1000000, 1000000)%Z ++ [(5000000, 5000001)%Z])
      (FPSMixin.init (0%nat, 1%Z) 5000000 0) = FPSMixin.Ticked s'
    /\ FPSMixin.fps s' =
       (FPSMixin.count (FPSMixin.init (0%nat, 1%Z) 5000000 0)
        + length (replicate 9 (1000000, 1000000)%Z) + 1,
        (5000000 - FPSMixin.start_time (FPSMixin.init (0%nat, 1%Z) 5000000 0))%Z)
    /\ FPSMixin.count s' = 0
    /\ FPSMixin.start_time s' = 5000001%Z
    /\ FPSMixin.printed s' =
       FPSMixin.printed (FPSMixin.init (0%nat, 1%Z) 5000000 0)
       ++ (if FPSMixin.print_fps (FPSMixin.init (0%nat, 1%Z) 5000000 0)
           then [FPSMixin.fps s'] else []).
Proof.
  apply (rate_published_at_window_end pair
           (replicate 9 (1000000, 1000000)%Z) 5000000 5000001
           (FPSMixin.init (0%nat, 1%Z) 5000000 0)).
  - simpl. repeat constructor.
  - simpl. lia.
  - simpl. lia.
Defined.
